(** * Lead Response Assistant (app.py): prompt composition, the completion
      call and the session shell

    A shallow embedding of [src/app.py].  The program is a Streamlit
    script: every user interaction executes [main] once, top to bottom,
    against the widget values of that interaction and a dictionary
    ([st.session_state]) that survives from one execution to the next.
    [generate_response] builds a two-message chat request and sends it to
    the Groq completion endpoint.

    Modelling choices.
    - A Python [str] is a sequence of Unicode code points: [list N].
      Literals are written as UTF-8 text and decoded by [py].
    - [st.session_state] is a [gmap] from keys to strings.
    - Effects (the dictionary, the outbound requests, what is drawn on the
      page) are threaded through a state monad whose outcomes are a
      returned value, a raised Python [Exception], or Streamlit's rerun
      signal.
    - The remote provider is a parameter: a function giving, for the n-th
      request of the process, either the exception [create] raises or the
      completion object it returns.
    - Below one call of [create], the SDK's request loop is modelled on
      the wire: the POSTs it sends and the sleeps it takes between them,
      for the client that [get_groq_client] builds. *)

From Stdlib Require Import String Ascii NArith ZArith QArith List Bool Lia.
From stdpp Require Import base option list gmap.
Import ListNotations.

Local Open Scope N_scope.

(** ** Python strings *)

Module PyStr.

(** A Python [str]: its code points, in order. *)
Abbreviation str := (list N).

(** UTF-8 decoding of the bytes of a literal, so that the constants of
    the script can be written as text. *)
Fixpoint utf8_decode (bs : list N) : list N :=
  match bs with
  | [] => []
  | b0 :: r0 =>
    if b0 <? 128 then b0 :: utf8_decode r0
    else if b0 <? 224 then
      match r0 with
      | b1 :: r1 => ((b0 - 192) * 64 + (b1 - 128)) :: utf8_decode r1
      | _ => []
      end
    else if b0 <? 240 then
      match r0 with
      | b1 :: b2 :: r2 =>
        ((b0 - 224) * 4096 + (b1 - 128) * 64 + (b2 - 128)) :: utf8_decode r2
      | _ => []
      end
    else
      match r0 with
      | b1 :: b2 :: b3 :: r3 =>
        ((b0 - 240) * 262144 + (b1 - 128) * 4096 + (b2 - 128) * 64
         + (b3 - 128)) :: utf8_decode r3
      | _ => []
      end
  end.

Definition py (s : string) : str :=
  utf8_decode (List.map N_of_ascii (list_ascii_of_string s)).

(** The line feed, Python's ["\n"]. *)
Definition LF : N := 10.

(** [str.isspace] on one code point, as CPython's [Py_UNICODE_ISSPACE]:
    the ASCII table entries 0x09-0x0D, 0x1C-0x1F and 0x20, and the
    code points of bidirectional type WS, B or S or of category Zs. *)
Definition isspace (c : N) : bool :=
  ((9 <=? c) && (c <=? 13)) || ((28 <=? c) && (c <=? 32))
  || (c =? 133) || (c =? 160) || (c =? 5760)
  || ((8192 <=? c) && (c <=? 8202))
  || (c =? 8232) || (c =? 8233) || (c =? 8239) || (c =? 8287)
  || (c =? 12288).

(** [s.lstrip()], [s.rstrip()] and [s.strip()] without argument. *)
Fixpoint lstrip (s : str) : str :=
  match s with
  | [] => []
  | c :: r => if isspace c then lstrip r else s
  end.

Fixpoint rstrip (s : str) : str :=
  match s with
  | [] => []
  | c :: r =>
    match rstrip r with
    | [] => if isspace c then [] else [c]
    | r' => c :: r'
    end
  end.

Definition strip (s : str) : str := rstrip (lstrip s).

(** Truthiness of a string: [not s] holds exactly for the empty one. *)
Definition truthy (s : str) : bool :=
  match s with [] => false | _ => true end.

(** An enquiry that is empty or consists of whitespace only. *)
Definition blank (s : str) : Prop := Forall (fun c => isspace c = true) s.

End PyStr.
Import PyStr.

(** ** Configuration constants (lines 30 and 35-94) *)

Definition MODEL_ID : str := Eval vm_compute in py "llama-3.3-70b-versatile".

Definition SYSTEM_PROMPT : str := Eval vm_compute in py
"You are a customer response assistant for a property inspection company.

Your task is to generate a polite, professional, and human-sounding reply to a customer enquiry.

STRICT RULES (must follow):
- Do NOT assume or guess the cause of the issue
- Do NOT diagnose the problem
- Do NOT mention specific causes (roof, leakage, walls, cracks, mold, inspection, repair, pricing, services) unless the customer explicitly mentions them
- Do NOT offer inspections, callbacks, site visits, or estimates
- Do NOT make promises or guarantees
- Do NOT use emojis or overly casual language

RESPONSE GUIDELINES:
- Acknowledge the customer's concern empathetically
- Ask only neutral, relevant clarifying questions
- Suggest only safe and general next steps (observation, keeping area clear, normal ventilation)
- Avoid technical jargon
- Keep the tone calm, supportive, and professional
- Keep the response concise and clear
- Reply in the same language the customer used

CRITICAL — Response Formatting Rules (YOU MUST FOLLOW):
You MUST format your entire response using Markdown with clear section headers. Do NOT write plain paragraphs without structure.

Use this exact template:

---

**Acknowledgement**

(1-2 sentences acknowledging the customer's concern empathetically)

---

**Clarifying Questions**

To understand your situation better, could you share:

1. (First neutral clarifying question)
2. (Second neutral clarifying question)
3. (Third neutral clarifying question)

---

**Suggested Next Steps**

In the meantime, here are a few things you can do:

- (First safe, general step)
- (Second safe, general step)
- (Third safe, general step)

---

**Closing**

(A warm, professional closing — let them know someone will get back once they share more details)

---
".

(** ** The request and its reply *)

(** One chat message: [{"role": ..., "content": ...}]. *)
Record Message := mkMessage { role : str; content : str }.

(** The keyword arguments of [client.chat.completions.create].  The two
    float literals are kept as the decimal values written in the source
    (0.5 and 0.9); no arithmetic is done on them. *)
Record Request := mkRequest {
  model : str;
  messages : list Message;
  temperature : Q;
  max_tokens : Z;
  top_p : Q
}.

(** The part of the completion object the script reads:
    [chat_completion.choices[i].message.content]. *)
Record Choice := mkChoice { message_content : str }.
Record ChatCompletion := mkChatCompletion { choices : list Choice }.

(** A raised Python [Exception], kept as the text [str(e)] gives. *)
Record PyExn := mkExn { exn_str : str }.

(** What [create] does with a request: raise, or return a completion. *)
Inductive Reply :=
| CreateRaises (e : PyExn)
| CreateReturns (c : ChatCompletion).

(** The provider: the reply to the request issued when [n] requests have
    already been sent.  The index lets two identical requests be answered
    differently. *)
Definition Provider := nat -> Request -> Reply.

(** ** The script's effects *)

(** What the right-hand column draws, in order.  The page chrome (page
    configuration, style sheet, header, the widgets and panels of the
    left-hand column, footer) is constant markup and is not recorded. *)
Inductive UiEvent :=
| st_subheader (s : str)
| st_warning (s : str)
| st_spinner (s : str)
| st_error (s : str)
| st_markdown (s : str)
| st_expander (s : str)
| st_code (s : str)
| st_info (s : str).

(** The mutable world of one browser session: the session dictionary, the
    requests sent to the provider so far (oldest first) and the elements
    drawn by the current execution of the script. *)
Record World := mkWorld {
  session_state : gmap str str;
  sent : list Request;
  page : list UiEvent
}.

(** How a computation ends.  [st.rerun()] stops the script through a control
    exception that is not an [Exception], so [except Exception] does not
    catch it: it is an outcome of its own. *)
Inductive Outcome (A : Type) :=
| Returned (a : A)
| Raised (e : PyExn)
| Rerun.
Arguments Returned {A} a.
Arguments Raised {A} e.
Arguments Rerun {A}.

Definition M (A : Type) : Type := World -> Outcome A * World.

Definition ret {A} (a : A) : M A := fun w => (Returned a, w).

Definition bind {A B} (m : M A) (k : A -> M B) : M B :=
  fun w =>
    match m w with
    | (Returned a, w') => k a w'
    | (Raised e, w') => (Raised e, w')
    | (Rerun, w') => (Rerun, w')
    end.

Definition raise {A} (e : PyExn) : M A := fun w => (Raised e, w).

(** [try: body  except Exception as e: handler(e)]. *)
Definition try_except {A} (body : M A) (handler : PyExn -> M A) : M A :=
  fun w =>
    match body w with
    | (Raised e, w') => handler e w'
    | r => r
    end.

Declare Scope script_scope.
Delimit Scope script_scope with script.
Notation "'let*' x ':=' m 'in' k" := (bind m (fun x => k))
  (at level 10, x name, m at level 100, k at level 200) : script_scope.
Notation "m '>>' k" := (bind m (fun _ => k))
  (at level 100, k at level 200, right associativity) : script_scope.
Local Open Scope script_scope.

(** [st.session_state[k] = v]. *)
Definition state_set (k v : str) : M unit :=
  fun w => (Returned tt,
            mkWorld (<[k := v]> (session_state w)) (sent w) (page w)).

(** [st.session_state.get(k, default)]. *)
Definition state_get (k default : str) : M str :=
  fun w => (Returned (match session_state w !! k with
                      | Some v => v
                      | None => default
                      end), w).

(** The value under [k], if the key is in the dictionary:
    [k in st.session_state] together with the reads [st.session_state[k]]
    that the test guards. *)
Definition state_lookup (k : str) : M (option str) :=
  fun w => (Returned (session_state w !! k), w).

(** Drawing one element. *)
Definition draw (ev : UiEvent) : M unit :=
  fun w => (Returned tt,
            mkWorld (session_state w) (sent w) (page w ++ [ev])).

(** [st.rerun()]. *)
Definition st_rerun : M unit := fun w => (Rerun, w).

(** [client.chat.completions.create(...)]: the request leaves, and the
    provider raises or returns. *)
Definition create (provider : Provider) (req : Request) : M ChatCompletion :=
  fun w =>
    let w' := mkWorld (session_state w) (sent w ++ [req]) (page w) in
    match provider (length (sent w)) req with
    | CreateRaises e => (Raised e, w')
    | CreateReturns c => (Returned c, w')
    end.

(** ** generate_response (lines 104-128) *)

(** Lines 108-114: the instruction fragment selected by the tone. *)
Definition tone_instruction (tone : str) : str :=
  if decide (tone = py "Friendly & Casual") then
    py "Use a friendly, casual tone — like talking to a neighbour."
  else if decide (tone = py "Formal & Professional") then
    py "Use a formal, professional tone suitable for corporate communication."
  else if decide (tone = py "Empathetic & Supportive") then
    py "Use an extra empathetic and supportive tone — the customer may be stressed."
  else [].

(** Lines 116-119: the message list. *)
Definition compose_messages (enquiry tone : str) : list Message :=
  [ mkMessage (py "system")
              (SYSTEM_PROMPT ++ [LF; LF] ++ tone_instruction tone);
    mkMessage (py "user") enquiry ].

(** Lines 121-127: the keyword arguments of the call. *)
Definition completion_request (enquiry tone : str) : Request :=
  {| model := MODEL_ID;
     messages := compose_messages enquiry tone;
     temperature := 0.5%Q;
     max_tokens := 1024%Z;
     top_p := 0.9%Q |}.

(** [choices[0]] on an empty list. *)
Definition IndexError : PyExn := mkExn (py "list index out of range").

Definition generate_response (provider : Provider) (enquiry tone : str)
  : M str :=
  let* chat_completion := create provider (completion_request enquiry tone) in
  match choices chat_completion with
  | [] => raise IndexError
  | c :: _ => ret (message_content c)
  end.

(** ** main: the right-hand column (lines 271-309) *)

(** The widget values of one execution of the script: the text area, the
    select box, and the two buttons.  A button reads [true] only in the
    execution its click caused.  The select box offers the three tones
    only; the script is modelled for any string. *)
Record Widgets := mkWidgets {
  enquiry : str;
  tone : str;
  generate_btn : bool;
  regenerate_btn : bool
}.

(** The widget values of an execution caused by a click on "Generate
    Response", by a click on "Regenerate", and by anything else (editing
    the text, choosing a tone, a rerun). *)
Definition click_generate (e t : str) : Widgets := mkWidgets e t true false.
Definition click_regenerate (e t : str) : Widgets := mkWidgets e t false true.
Definition no_click (e t : str) : Widgets := mkWidgets e t false false.

Definition DQ : N := 34.

Definition last_response : str := Eval vm_compute in py "last_response".
Definition last_enquiry : str := Eval vm_compute in py "last_enquiry".

Definition WARN_EMPTY : str :=
  Eval vm_compute in py "⚠️ Please enter a customer enquiry first.".
Definition ERR_GENERATE : str :=
  Eval vm_compute in py "❌ Error from Groq API: ".
Definition ERR_REGENERATE : str := Eval vm_compute in py "❌ Error: ".

(** Lines 274-284. *)
Definition generate_section (provider : Provider) (wd : Widgets) : M unit :=
  if generate_btn wd then
    if negb (truthy (strip (enquiry wd))) then
      draw (st_warning WARN_EMPTY)
    else
      draw (st_spinner (py "Thinking…")) >>
      try_except
        (let* response := generate_response provider (enquiry wd) (tone wd) in
         state_set last_response response >>
         state_set last_enquiry (enquiry wd))
        (fun e => draw (st_error (ERR_GENERATE ++ exn_str e)))
  else ret tt.

(** Lines 286-309. *)
Definition display_section (provider : Provider) (wd : Widgets) : M unit :=
  let* shown := state_lookup last_response in
  match shown with
  | Some text =>
    draw (st_markdown (py "<div class=" ++ [DQ] ++ py "response-card"
                       ++ [DQ] ++ py ">")) >>
    draw (st_markdown text) >>
    draw (st_markdown (py "</div>")) >>
    draw (st_expander (py "📋 Copy-friendly plain text")) >>
    draw (st_code text) >>
    if regenerate_btn wd then
      draw (st_spinner (py "Regenerating…")) >>
      try_except
        (let* stored := state_get last_enquiry [] in
         let* response := generate_response provider stored (tone wd) in
         state_set last_response response >>
         st_rerun)
        (fun e => draw (st_error (ERR_REGENERATE ++ exn_str e)))
    else ret tt
  | None =>
    draw (st_info (py "👈 Enter a customer enquiry on the left and click **Generate Response**."))
  end.

Definition main (provider : Provider) (wd : Widgets) : M unit :=
  draw (st_subheader (py "✏️ Drafted Reply")) >>
  generate_section provider wd >>
  display_section provider wd.

(** ** The session shell *)

(** One execution of the script: the page is drawn afresh. *)
Definition script_run (provider : Provider) (wd : Widgets) (w : World)
  : Outcome unit * World :=
  main provider wd (mkWorld (session_state w) (sent w) []).

(** The widget values of the execution a rerun starts: the text and the
    tone stay, no button reads [true]. *)
Definition released (wd : Widgets) : Widgets :=
  no_click (enquiry wd) (tone wd).

(** One user interaction: the script runs, and runs once more when it asked
    for a rerun. *)
Definition interaction (provider : Provider) (wd : Widgets) (w : World)
  : Outcome unit * World :=
  match script_run provider wd w with
  | (Rerun, w') => script_run provider (released wd) w'
  | r => r
  end.

(** A session starts with an empty dictionary and nothing sent. *)
Definition fresh : World := mkWorld ∅ [] [].

(** The worlds a session can be in: [fresh], and what any interaction
    makes of a reachable world. *)
Inductive reachable (provider : Provider) : World -> Prop :=
| reachable_fresh : reachable provider fresh
| reachable_step wd w :
    reachable provider w ->
    reachable provider (snd (interaction provider wd w)).

(** ** Vocabulary of the properties *)

(** The tones of the select box (line 245) and the instruction each one
    stands for: the fixed table the if-chain of [tone_instruction] is
    compared with. *)
Inductive Tone := FriendlyCasual | FormalProfessional | EmpatheticSupportive.

Definition tone_label (t : Tone) : str :=
  match t with
  | FriendlyCasual => py "Friendly & Casual"
  | FormalProfessional => py "Formal & Professional"
  | EmpatheticSupportive => py "Empathetic & Supportive"
  end.

Definition tone_fragment (t : Tone) : str :=
  match t with
  | FriendlyCasual =>
    py "Use a friendly, casual tone — like talking to a neighbour."
  | FormalProfessional =>
    py "Use a formal, professional tone suitable for corporate communication."
  | EmpatheticSupportive =>
    py "Use an extra empathetic and supportive tone — the customer may be stressed."
  end.

(** A tone outside the enumerated set. *)
Definition unknown_tone (s : str) : Prop := forall t, s <> tone_label t.

(** The two messages of the data model: the system message carrying the
    policy text and a fragment, then the user message. *)
Definition two_messages (fragment user_text : str) : list Message :=
  [ {| role := py "system";
       content := SYSTEM_PROMPT ++ [LF; LF] ++ fragment |};
    {| role := py "user"; content := user_text |} ].

(** How a call of [generate_response] ends, read off the provider's reply:
    the exception of [create] propagates, an empty [choices] list raises
    [IndexError], otherwise the first choice's text is returned. *)
Definition outcome_of_reply (r : Reply) : Outcome str :=
  match r with
  | CreateRaises x => Raised x
  | CreateReturns c =>
    match choices c with
    | [] => Raised IndexError
    | ch :: _ => Returned (message_content ch)
    end
  end.

(** [st.session_state.get("last_enquiry", "")] in world [w]. *)
Definition stored_enquiry (w : World) : str :=
  match session_state w !! last_enquiry with
  | Some e => e
  | None => []
  end.

(** The elements that show the latest response (lines 288-294). *)
Definition response_card (text : str) : list UiEvent :=
  [ st_markdown (py "<div class=" ++ [DQ] ++ py "response-card"
                 ++ [DQ] ++ py ">");
    st_markdown text;
    st_markdown (py "</div>");
    st_expander (py "📋 Copy-friendly plain text");
    st_code text ].

(** The two actions that call the provider. *)
Inductive Action := Generate | Regenerate.

(** The widget values of the execution an action causes, the condition
    under which it reaches the provider, the request it then sends and the
    label of its error box. *)
Definition widgets_of (a : Action) (e t : str) : Widgets :=
  match a with
  | Generate => click_generate e t
  | Regenerate => click_regenerate e t
  end.

Definition reaches_provider (a : Action) (e : str) (w : World) : Prop :=
  match a with
  | Generate => ~ blank e
  | Regenerate => is_Some (session_state w !! last_response)
  end.

Definition request_of (a : Action) (e t : str) (w : World) : Request :=
  match a with
  | Generate => completion_request e t
  | Regenerate => completion_request (stored_enquiry w) t
  end.

Definition error_label (a : Action) : str :=
  match a with
  | Generate => ERR_GENERATE
  | Regenerate => ERR_REGENERATE
  end.

(** The fixed request parameters. *)
Definition fixed_parameters (r : Request) : Prop :=
  model r = py "llama-3.3-70b-versatile"
  /\ temperature r = 0.5%Q
  /\ top_p r = 0.9%Q
  /\ max_tokens r = 1024%Z.

(** The session invariant: a stored response comes with a stored enquiry
    that is not blank. *)
Definition session_inv (st : gmap str str) : Prop :=
  is_Some (st !! last_response) ->
  exists e, st !! last_enquiry = Some e /\ strip e <> [].

(** The user message of a request carries a non-blank text. *)
Definition sends_enquiry (r : Request) : Prop :=
  exists sys usr,
    messages r = [sys; usr] /\ role usr = py "user"
    /\ strip (content usr) <> [].

(** Sample providers for the examples. *)
Definition answering (text : str) : Provider :=
  fun _ _ => CreateReturns (mkChatCompletion [mkChoice text]).

Definition failing (text : str) : Provider :=
  fun _ _ => CreateRaises (mkExn text).

(** Answers the first request and fails afterwards. *)
Definition answering_once (text err : str) : Provider :=
  fun n _ =>
    match n with
    | O => CreateReturns (mkChatCompletion [mkChoice text])
    | S _ => CreateRaises (mkExn err)
    end.

(** A request as [generate_response] builds it, for a non-blank enquiry. *)
Definition well_formed_request (r : Request) : Prop :=
  exists e t, r = completion_request e t /\ strip e <> [].

(** What one piece of the script may do to the world: keep the session
    invariant, and append well-formed requests to the log. *)
Definition sound_step (w w' : World) : Prop :=
  session_inv (session_state w) ->
  session_inv (session_state w')
  /\ exists reqs, sent w' = sent w ++ reqs /\ Forall well_formed_request reqs.

(** ** The branches of the script *)

(** The four ways through the generate section (lines 274-284), each with
    the world it leaves: no click; a click on a blank enquiry; a click
    answered by the provider; a click on which the provider call fails. *)
Inductive gen_case (p : Provider) (wd : Widgets) (w : World) : World -> Prop :=
| gen_off :
    generate_btn wd = false ->
    gen_case p wd w w
| gen_blank :
    generate_btn wd = true ->
    blank (enquiry wd) ->
    gen_case p wd w
      (mkWorld (session_state w) (sent w) (page w ++ [st_warning WARN_EMPTY]))
| gen_ok (text : str) :
    generate_btn wd = true ->
    ~ blank (enquiry wd) ->
    outcome_of_reply
      (p (length (sent w)) (completion_request (enquiry wd) (tone wd)))
    = Returned text ->
    gen_case p wd w
      (mkWorld (<[last_enquiry := enquiry wd]>
                  (<[last_response := text]> (session_state w)))
               (sent w ++ [completion_request (enquiry wd) (tone wd)])
               (page w ++ [st_spinner (py "Thinking…")]))
| gen_fail (x : PyExn) :
    generate_btn wd = true ->
    ~ blank (enquiry wd) ->
    outcome_of_reply
      (p (length (sent w)) (completion_request (enquiry wd) (tone wd)))
    = Raised x ->
    gen_case p wd w
      (mkWorld (session_state w)
               (sent w ++ [completion_request (enquiry wd) (tone wd)])
               (page w ++ [st_spinner (py "Thinking…");
                           st_error (ERR_GENERATE ++ exn_str x)])).

(** The four ways through the display section (lines 286-309), each with
    its outcome and the world it leaves: nothing stored; a stored response
    and no click; a regeneration answered by the provider; a regeneration
    on which the provider call fails. *)
Inductive disp_case (p : Provider) (wd : Widgets) (w : World)
  : Outcome unit -> World -> Prop :=
| disp_empty (hint : str) :
    session_state w !! last_response = None ->
    disp_case p wd w (Returned tt)
      (mkWorld (session_state w) (sent w) (page w ++ [st_info hint]))
| disp_idle (text : str) :
    session_state w !! last_response = Some text ->
    regenerate_btn wd = false ->
    disp_case p wd w (Returned tt)
      (mkWorld (session_state w) (sent w) (page w ++ response_card text))
| disp_ok (text fresh_text : str) :
    session_state w !! last_response = Some text ->
    regenerate_btn wd = true ->
    outcome_of_reply
      (p (length (sent w)) (completion_request (stored_enquiry w) (tone wd)))
    = Returned fresh_text ->
    disp_case p wd w Rerun
      (mkWorld (<[last_response := fresh_text]> (session_state w))
               (sent w ++ [completion_request (stored_enquiry w) (tone wd)])
               (page w ++ response_card text
                       ++ [st_spinner (py "Regenerating…")]))
| disp_fail (text : str) (x : PyExn) :
    session_state w !! last_response = Some text ->
    regenerate_btn wd = true ->
    outcome_of_reply
      (p (length (sent w)) (completion_request (stored_enquiry w) (tone wd)))
    = Raised x ->
    disp_case p wd w (Returned tt)
      (mkWorld (session_state w)
               (sent w ++ [completion_request (stored_enquiry w) (tone wd)])
               (page w ++ response_card text
                       ++ [st_spinner (py "Regenerating…");
                           st_error (ERR_REGENERATE ++ exn_str x)])).

(** The world an execution of the script starts its two sections in: the
    page holds the heading of the column only. *)
Definition headed (w : World) : World :=
  mkWorld (session_state w) (sent w) [st_subheader (py "✏️ Drafted Reply")].

(** One execution of the script is a way through the generate section
    followed by a way through the display section. *)
Inductive run_case (p : Provider) (wd : Widgets) (w : World)
  : Outcome unit -> World -> Prop :=
| run_through w1 o w2 :
    gen_case p wd (headed w) w1 ->
    disp_case p wd w1 o w2 ->
    run_case p wd w o w2.

(** One interaction is an execution that returns, or an execution that
    asks for a rerun followed by one with no button pressed. *)
Inductive interaction_case (p : Provider) (wd : Widgets) (w : World)
  : World -> Prop :=
| interaction_once w1 :
    run_case p wd w (Returned tt) w1 ->
    interaction_case p wd w w1
| interaction_rerun w1 w2 :
    run_case p wd w Rerun w1 ->
    run_case p (released wd) w1 (Returned tt) w2 ->
    interaction_case p wd w w2.

(** The page shows the stored response and nothing else: with a response
    stored, the card of exactly that text; with none, the hint and no
    card. *)
Definition page_in_sync (w : World) : Prop :=
  match session_state w !! last_response with
  | Some text =>
    In (st_markdown text) (page w)
    /\ (forall s, In (st_code s) (page w) <-> s = text)
  | None =>
    (exists hint, In (st_info hint) (page w))
    /\ (forall s, ~ In (st_code s) (page w))
  end.

(** The stored response is the provider's answer to a request that
    carried the stored enquiry. *)
Definition answers_stored_enquiry (p : Provider) (w : World) : Prop :=
  forall text,
    session_state w !! last_response = Some text ->
    exists e t n,
      session_state w !! last_enquiry = Some e
      /\ sent w !! n = Some (completion_request e t)
      /\ outcome_of_reply (p n (completion_request e t)) = Returned text.

(** The number of provider calls a button may cost. *)
Definition cost (b : bool) : nat := if b then 1%nat else 0%nat.

(** An error box that reports a provider call of the interaction leading
    from [w] to [w']: its text is one of the two labels followed by the
    text of the exception with which a request sent since [w] ended. *)
Definition reports_failure (p : Provider) (w w' : World) (s : str) : Prop :=
  exists x n req,
    (s = ERR_GENERATE ++ exn_str x \/ s = ERR_REGENERATE ++ exn_str x)
    /\ (length (sent w) <= n)%nat
    /\ sent w' !! n = Some req
    /\ outcome_of_reply (p n req) = Raised x.

(** ** The client and the wire (lines 99-101 and 121-127) *)














(** * Properties *)

(** ** Stripping and blank strings *)

Section Strip.

Lemma rstrip_nil_iff (s : str) : rstrip s = [] <-> blank s.
Proof.
  induction s as [|c r IH]; simpl.
  - split; [intros _; constructor | reflexivity].
  - destruct (rstrip r) as [|c' r'] eqn:Hr.
    + destruct (isspace c) eqn:Hc; split; intros H.
      * constructor; [exact Hc | apply IH; reflexivity].
      * reflexivity.
      * discriminate H.
      * inversion H; subst; congruence.
    + split; intros H; [discriminate H |].
      inversion H as [|? ? _ Hb]; subst.
      apply IH in Hb; discriminate Hb.
Qed.

Lemma lstrip_nil_iff (s : str) : lstrip s = [] <-> blank s.
Proof.
  induction s as [|c r IH]; simpl.
  - split; [intros _; constructor | reflexivity].
  - destruct (isspace c) eqn:Hc; split; intros H.
    + constructor; [exact Hc | apply IH, H].
    + inversion H; subst; apply IH; assumption.
    + discriminate H.
    + inversion H; subst; congruence.
Qed.

(** What [lstrip] leaves does not start with whitespace. *)
Lemma lstrip_head (s : str) :
  match lstrip s with
  | [] => True
  | c :: _ => isspace c = false
  end.
Proof.
  induction s as [|c r IH]; simpl; [exact I |].
  destruct (isspace c) eqn:Hc; [exact IH | exact Hc].
Qed.

(** [not enquiry.strip()] holds exactly for the blank enquiries. *)
Lemma strip_nil_iff (s : str) : strip s = [] <-> blank s.
Proof.
  unfold strip. rewrite rstrip_nil_iff, <- (lstrip_nil_iff s).
  pose proof (lstrip_head s) as Hh.
  destruct (lstrip s) as [|c r]; [split; [intros _; reflexivity | intros _; constructor] |].
  split; intros H; [| discriminate H].
  inversion H; subst; congruence.
Qed.

Lemma truthy_strip_false (s : str) :
  truthy (strip s) = false <-> blank s.
Proof.
  rewrite <- strip_nil_iff.
  destruct (strip s); simpl; split; congruence.
Qed.

Lemma truthy_strip_true (s : str) :
  truthy (strip s) = true <-> ~ blank s.
Proof.
  rewrite <- truthy_strip_false.
  destruct (truthy (strip s)); split; congruence.
Qed.

End Strip.

(** ** Equations of the script *)

Lemma outcome_of_reply_not_rerun (r : Reply) : outcome_of_reply r <> Rerun.
Proof.
  destruct r as [x|c]; simpl; [discriminate |].
  destruct (choices c); discriminate.
Qed.

Lemma generate_response_eq (p : Provider) (e t : str) (w : World) :
  generate_response p e t w =
  (outcome_of_reply (p (length (sent w)) (completion_request e t)),
   mkWorld (session_state w) (sent w ++ [completion_request e t]) (page w)).
Proof.
  unfold generate_response, bind, create, outcome_of_reply, raise, ret.
  cbv zeta.
  destruct (p (length (sent w)) (completion_request e t)) as [x|c];
    [reflexivity |].
  destruct (choices c); reflexivity.
Qed.

Section GenerateSection.

Variable p : Provider.
Variables (wd : Widgets) (w : World).

Let req := completion_request (enquiry wd) (tone wd).
Let reply := outcome_of_reply (p (length (sent w)) req).

Lemma generate_section_off :
  generate_btn wd = false -> generate_section p wd w = (Returned tt, w).
Proof. intros Hb. unfold generate_section. rewrite Hb. reflexivity. Qed.

Lemma generate_section_blank :
  generate_btn wd = true -> blank (enquiry wd) ->
  generate_section p wd w =
  (Returned tt,
   mkWorld (session_state w) (sent w) (page w ++ [st_warning WARN_EMPTY])).
Proof.
  intros Hb Hblank. apply truthy_strip_false in Hblank.
  unfold generate_section. rewrite Hb, Hblank. reflexivity.
Qed.

Lemma generate_section_ok (text : str) :
  generate_btn wd = true -> ~ blank (enquiry wd) ->
  reply = Returned text ->
  generate_section p wd w =
  (Returned tt,
   mkWorld (<[last_enquiry := enquiry wd]>
              (<[last_response := text]> (session_state w)))
           (sent w ++ [req])
           (page w ++ [st_spinner (py "Thinking…")])).
Proof.
  intros Hb Hnb Hr. apply truthy_strip_true in Hnb.
  unfold generate_section. rewrite Hb, Hnb. cbv [negb].
  unfold bind, try_except, draw, state_set. cbv beta iota.
  rewrite generate_response_eq. cbn [sent session_state page].
  fold req. fold reply. rewrite Hr. cbn [sent session_state page].
  reflexivity.
Qed.

Lemma generate_section_fail (x : PyExn) :
  generate_btn wd = true -> ~ blank (enquiry wd) ->
  reply = Raised x ->
  generate_section p wd w =
  (Returned tt,
   mkWorld (session_state w)
           (sent w ++ [req])
           (page w ++ [st_spinner (py "Thinking…");
                       st_error (ERR_GENERATE ++ exn_str x)])).
Proof.
  intros Hb Hnb Hr. apply truthy_strip_true in Hnb.
  unfold generate_section. rewrite Hb, Hnb. cbv [negb].
  unfold bind, try_except, draw, state_set. cbv beta iota.
  rewrite generate_response_eq. cbn [sent session_state page].
  fold req. fold reply. rewrite Hr. cbn [sent session_state page].
  rewrite <- app_assoc. reflexivity.
Qed.

End GenerateSection.

Section DisplaySection.

Variable p : Provider.
Variables (wd : Widgets) (w : World).

Let req := completion_request (stored_enquiry w) (tone wd).
Let reply := outcome_of_reply (p (length (sent w)) req).

Lemma display_section_empty :
  session_state w !! last_response = None ->
  exists ev,
    display_section p wd w =
    (Returned tt, mkWorld (session_state w) (sent w) (page w ++ [st_info ev])).
Proof.
  intros Hn. eexists.
  unfold display_section, bind, state_lookup. rewrite Hn. reflexivity.
Qed.

Lemma display_section_idle (text : str) :
  session_state w !! last_response = Some text ->
  regenerate_btn wd = false ->
  display_section p wd w =
  (Returned tt,
   mkWorld (session_state w) (sent w) (page w ++ response_card text)).
Proof.
  intros Hs Hb.
  unfold display_section, bind, state_lookup. rewrite Hs, Hb.
  unfold draw, ret. cbn [sent session_state page].
  rewrite <- !app_assoc. reflexivity.
Qed.

Lemma display_section_ok (text fresh_text : str) :
  session_state w !! last_response = Some text ->
  regenerate_btn wd = true ->
  reply = Returned fresh_text ->
  display_section p wd w =
  (Rerun,
   mkWorld (<[last_response := fresh_text]> (session_state w))
           (sent w ++ [req])
           (page w ++ response_card text
                   ++ [st_spinner (py "Regenerating…")])).
Proof.
  intros Hs Hb Hr.
  unfold display_section, bind, state_lookup. rewrite Hs, Hb.
  unfold draw, try_except, bind, state_get, state_set, st_rerun.
  cbn [sent session_state page].
  rewrite generate_response_eq. cbn [sent session_state page].
  fold (stored_enquiry w). fold req. fold reply. rewrite Hr.
  cbn [sent session_state page].
  rewrite <- !app_assoc. reflexivity.
Qed.

Lemma display_section_fail (text : str) (x : PyExn) :
  session_state w !! last_response = Some text ->
  regenerate_btn wd = true ->
  reply = Raised x ->
  display_section p wd w =
  (Returned tt,
   mkWorld (session_state w)
           (sent w ++ [req])
           (page w ++ response_card text
                   ++ [st_spinner (py "Regenerating…");
                       st_error (ERR_REGENERATE ++ exn_str x)])).
Proof.
  intros Hs Hb Hr.
  unfold display_section, bind, state_lookup. rewrite Hs, Hb.
  unfold draw, try_except, bind, state_get, state_set, st_rerun.
  cbn [sent session_state page].
  rewrite generate_response_eq. cbn [sent session_state page].
  fold (stored_enquiry w). fold req. fold reply. rewrite Hr.
  cbn [sent session_state page].
  rewrite <- !app_assoc. reflexivity.
Qed.

End DisplaySection.

(** ** The two sections keep the session sound *)

Lemma keys_distinct : last_response <> last_enquiry.
Proof. discriminate. Qed.

Lemma main_eq (p : Provider) (wd : Widgets) (w : World) :
  main p wd w =
  match generate_section p wd
          (mkWorld (session_state w) (sent w)
                   (page w ++ [st_subheader (py "✏️ Drafted Reply")])) with
  | (Returned _, w1) => display_section p wd w1
  | (Raised x, w1) => (Raised x, w1)
  | (Rerun, w1) => (Rerun, w1)
  end.
Proof. reflexivity. Qed.

Lemma sound_step_same (w w' : World) :
  session_state w' = session_state w -> sent w' = sent w -> sound_step w w'.
Proof.
  intros Hs Hl Hinv. rewrite Hs, Hl. split; [exact Hinv |].
  exists []. rewrite app_nil_r. split; [reflexivity | constructor].
Qed.

Lemma sound_step_trans (w1 w2 w3 : World) :
  sound_step w1 w2 -> sound_step w2 w3 -> sound_step w1 w3.
Proof.
  intros H12 H23 Hinv.
  destruct (H12 Hinv) as [Hinv2 (r12 & Hs12 & Hf12)].
  destruct (H23 Hinv2) as [Hinv3 (r23 & Hs23 & Hf23)].
  split; [exact Hinv3 |].
  exists (r12 ++ r23). split.
  - rewrite Hs23, Hs12, app_assoc. reflexivity.
  - apply Forall_app; split; assumption.
Qed.

(** The generate section always returns normally. *)
Lemma generate_section_step (p : Provider) (wd : Widgets) (w : World) :
  exists w1,
    generate_section p wd w = (Returned tt, w1) /\ sound_step w w1.
Proof.
  destruct (generate_btn wd) eqn:Hb.
  2:{ exists w. split; [apply generate_section_off, Hb |].
      apply sound_step_same; reflexivity. }
  destruct (truthy (strip (enquiry wd))) eqn:Ht.
  2:{ apply truthy_strip_false in Ht.
      eexists. split; [apply generate_section_blank; assumption |].
      apply sound_step_same; reflexivity. }
  apply truthy_strip_true in Ht.
  assert (Hne : strip (enquiry wd) <> [])
    by (intros H; apply Ht, strip_nil_iff, H).
  destruct (outcome_of_reply
              (p (length (sent w))
                 (completion_request (enquiry wd) (tone wd))))
    as [text|x|] eqn:Hr.
  - eexists. split; [apply (generate_section_ok p wd w text); assumption |].
    intros _. cbn [session_state sent]. split.
    + intros _. exists (enquiry wd). split; [| exact Hne].
      apply lookup_insert_eq.
    + eexists. split; [reflexivity |].
      constructor; [| constructor]. exists (enquiry wd), (tone wd). auto.
  - eexists. split; [apply (generate_section_fail p wd w x); assumption |].
    intros Hinv. cbn [session_state sent]. split; [exact Hinv |].
    eexists. split; [reflexivity |].
    constructor; [| constructor]. exists (enquiry wd), (tone wd). auto.
  - exfalso. exact (outcome_of_reply_not_rerun _ Hr).
Qed.

Lemma stored_enquiry_sound (w : World) :
  session_inv (session_state w) ->
  is_Some (session_state w !! last_response) ->
  strip (stored_enquiry w) <> [].
Proof.
  intros Hinv Hs. destruct (Hinv Hs) as (e & He & Hne).
  unfold stored_enquiry. rewrite He. exact Hne.
Qed.

(** The display section returns normally or asks for a rerun; without a
    click on "Regenerate" it only draws. *)
Lemma display_section_step (p : Provider) (wd : Widgets) (w : World) :
  exists o w1,
    display_section p wd w = (o, w1)
    /\ sound_step w w1
    /\ (o = Returned tt \/ o = Rerun)
    /\ (regenerate_btn wd = false ->
        o = Returned tt /\ session_state w1 = session_state w
        /\ sent w1 = sent w).
Proof.
  destruct (session_state w !! last_response) as [text|] eqn:Hs.
  2:{ destruct (display_section_empty p wd w Hs) as [ev Hev].
      do 2 eexists. split; [exact Hev |].
      split; [apply sound_step_same; reflexivity |]. auto. }
  destruct (regenerate_btn wd) eqn:Hb.
  2:{ do 2 eexists. split; [apply (display_section_idle p wd w text); auto |].
      split; [apply sound_step_same; reflexivity |]. auto. }
  destruct (outcome_of_reply
              (p (length (sent w))
                 (completion_request (stored_enquiry w) (tone wd))))
    as [fresh_text|x|] eqn:Hr.
  - do 2 eexists.
    split; [apply (display_section_ok p wd w text fresh_text); auto |].
    split; [| split; [auto | discriminate]].
    intros Hinv. cbn [session_state sent].
    assert (Hne := stored_enquiry_sound w Hinv (mk_is_Some _ _ Hs)).
    split.
    + intros _. destruct (Hinv (mk_is_Some _ _ Hs)) as (e & He & Hse).
      exists e. split; [| exact Hse].
      rewrite lookup_insert_ne by exact keys_distinct. exact He.
    + eexists. split; [reflexivity |].
      constructor; [| constructor]. do 2 eexists. split; [reflexivity | auto].
  - do 2 eexists.
    split; [apply (display_section_fail p wd w text x); auto |].
    split; [| split; [auto | discriminate]].
    intros Hinv. cbn [session_state sent].
    assert (Hne := stored_enquiry_sound w Hinv (mk_is_Some _ _ Hs)).
    split; [exact Hinv |].
    eexists. split; [reflexivity |].
    constructor; [| constructor]. do 2 eexists. split; [reflexivity | auto].
  - exfalso. exact (outcome_of_reply_not_rerun _ Hr).
Qed.

(** One execution of the script. *)
Lemma script_run_step (p : Provider) (wd : Widgets) (w : World) :
  exists o w1,
    script_run p wd w = (o, w1)
    /\ sound_step w w1
    /\ (o = Returned tt \/ o = Rerun)
    /\ (regenerate_btn wd = false -> o = Returned tt)
    /\ (generate_btn wd = false -> regenerate_btn wd = false ->
        session_state w1 = session_state w /\ sent w1 = sent w).
Proof.
  unfold script_run. rewrite main_eq. cbn [session_state sent page].
  set (w0 := mkWorld (session_state w) (sent w) _).
  destruct (generate_section_step p wd w0) as (w1 & Hg & Hstep1).
  rewrite Hg.
  destruct (display_section_step p wd w1) as (o & w2 & Hd & Hstep2 & Ho & Hidle).
  exists o, w2. split; [exact Hd |].
  split.
  { apply sound_step_trans with w1; [| exact Hstep2].
    intros Hinv. apply (Hstep1 Hinv). }
  split; [exact Ho |].
  split; [intros Hb; apply (Hidle Hb) |].
  intros Hgb Hrb. destruct (Hidle Hrb) as (_ & Hs2 & Hl2).
  rewrite (generate_section_off p wd w0 Hgb) in Hg.
  injection Hg as <-. rewrite Hs2, Hl2. split; reflexivity.
Qed.

(** One interaction always ends normally: the execution a rerun starts has
    no button pressed and cannot ask for another rerun. *)
Lemma interaction_step (p : Provider) (wd : Widgets) (w : World) :
  exists w1,
    interaction p wd w = (Returned tt, w1) /\ sound_step w w1.
Proof.
  unfold interaction.
  destruct (script_run_step p wd w) as (o & w1 & Hrun & Hstep & Ho & _).
  rewrite Hrun.
  destruct Ho as [-> | ->]; [exists w1; auto |].
  destruct (script_run_step p (released wd) w1)
    as (o2 & w2 & Hrun2 & Hstep2 & _ & Hret & _).
  rewrite Hrun2, (Hret eq_refl).
  exists w2. split; [reflexivity |].
  apply sound_step_trans with w1; assumption.
Qed.

(** Every reachable world satisfies the session invariant, and every
    request it has sent is well formed. *)
Lemma reachable_sound (p : Provider) (w : World) :
  reachable p w ->
  session_inv (session_state w) /\ Forall well_formed_request (sent w).
Proof.
  induction 1 as [|wd w Hreach [Hinv Hall]].
  - split; [| constructor].
    intros [v Hv]. cbn in Hv. rewrite lookup_empty in Hv. discriminate Hv.
  - destruct (interaction_step p wd w) as (w1 & Heq & Hstep).
    rewrite Heq. cbn [snd].
    destruct (Hstep Hinv) as [Hinv1 (reqs & Hs & Hf)].
    split; [exact Hinv1 |].
    rewrite Hs. apply Forall_app; split; assumption.
Qed.

(** ** What a click does *)

Lemma lookup_after_generate (st : gmap str str) (e text : str) :
  <[last_enquiry := e]> (<[last_response := text]> st) !! last_response
  = Some text.
Proof.
  rewrite lookup_insert_ne by (intros H; symmetry in H; exact (keys_distinct H)).
  apply lookup_insert_eq.
Qed.

Section Clicks.

Variable p : Provider.
Variables (wd : Widgets) (w : World).

(** "Generate Response" on a blank enquiry. *)
Lemma click_generate_blank :
  generate_btn wd = true -> regenerate_btn wd = false ->
  blank (enquiry wd) ->
  exists pg,
    interaction p wd w = (Returned tt, mkWorld (session_state w) (sent w) pg)
    /\ In (st_warning WARN_EMPTY) pg.
Proof.
  intros Hg Hr Hblank.
  unfold interaction, script_run. rewrite main_eq.
  cbn [session_state sent page].
  rewrite generate_section_blank by assumption.
  cbn [session_state sent page].
  destruct (session_state w !! last_response) as [old|] eqn:Hs.
  - rewrite (display_section_idle p wd _ old) by assumption.
    eexists. split; [reflexivity |].
    cbn [page]. apply in_or_app. left. apply in_or_app. right. left.
    reflexivity.
  - match goal with
    | |- context [display_section p wd ?w0] =>
      destruct (display_section_empty p wd w0 Hs) as [ev Hev]; rewrite Hev
    end.
    eexists. split; [reflexivity |].
    cbn [page]. apply in_or_app. left. apply in_or_app. right. left.
    reflexivity.
Qed.

(** "Generate Response" with a provider that answers. *)
Lemma click_generate_ok (text : str) :
  generate_btn wd = true -> regenerate_btn wd = false ->
  ~ blank (enquiry wd) ->
  outcome_of_reply
    (p (length (sent w)) (completion_request (enquiry wd) (tone wd)))
  = Returned text ->
  exists pg,
    interaction p wd w =
    (Returned tt,
     mkWorld (<[last_enquiry := enquiry wd]>
                (<[last_response := text]> (session_state w)))
             (sent w ++ [completion_request (enquiry wd) (tone wd)])
             pg)
    /\ In (st_markdown text) pg.
Proof.
  intros Hg Hr Hnb Hok.
  unfold interaction, script_run. rewrite main_eq.
  cbn [session_state sent page].
  rewrite (generate_section_ok p wd _ text) by assumption.
  cbn [session_state sent page].
  rewrite (display_section_idle p wd _ text);
    [| apply lookup_after_generate | assumption].
  eexists. split; [reflexivity |].
  cbn [page]. apply in_or_app. right. right. left. reflexivity.
Qed.

(** "Generate Response" with a provider that fails. *)
Lemma click_generate_fail (x : PyExn) :
  generate_btn wd = true -> regenerate_btn wd = false ->
  ~ blank (enquiry wd) ->
  outcome_of_reply
    (p (length (sent w)) (completion_request (enquiry wd) (tone wd)))
  = Raised x ->
  exists pg,
    interaction p wd w =
    (Returned tt,
     mkWorld (session_state w)
             (sent w ++ [completion_request (enquiry wd) (tone wd)])
             pg)
    /\ In (st_error (ERR_GENERATE ++ exn_str x)) pg
    /\ (forall old, session_state w !! last_response = Some old ->
                    In (st_markdown old) pg).
Proof.
  intros Hg Hr Hnb Hfail.
  unfold interaction, script_run. rewrite main_eq.
  cbn [session_state sent page].
  rewrite (generate_section_fail p wd _ x) by assumption.
  cbn [session_state sent page].
  destruct (session_state w !! last_response) as [old|] eqn:Hs.
  - rewrite (display_section_idle p wd _ old) by assumption.
    eexists. split; [reflexivity |]. cbn [page]. split.
    + apply in_or_app. left. apply in_or_app. right. right. left.
      reflexivity.
    + intros old' [= <-]. apply in_or_app. right. right. left. reflexivity.
  - match goal with
    | |- context [display_section p wd ?w0] =>
      destruct (display_section_empty p wd w0 Hs) as [ev Hev]; rewrite Hev
    end.
    eexists. split; [reflexivity |]. cbn [page]. split.
    + apply in_or_app. left. apply in_or_app. right. right. left.
      reflexivity.
    + intros old' [=].
Qed.

(** "Regenerate" with a provider that answers: the response is replaced
    and the script runs again to draw it. *)
Lemma click_regenerate_ok (old fresh_text : str) :
  generate_btn wd = false -> regenerate_btn wd = true ->
  session_state w !! last_response = Some old ->
  outcome_of_reply
    (p (length (sent w)) (completion_request (stored_enquiry w) (tone wd)))
  = Returned fresh_text ->
  exists pg,
    interaction p wd w =
    (Returned tt,
     mkWorld (<[last_response := fresh_text]> (session_state w))
             (sent w ++ [completion_request (stored_enquiry w) (tone wd)])
             pg)
    /\ In (st_markdown fresh_text) pg.
Proof.
  intros Hg Hr Hs Hok.
  unfold interaction, script_run. rewrite main_eq.
  cbn [session_state sent page].
  rewrite generate_section_off by assumption.
  rewrite (display_section_ok p wd _ old fresh_text) by assumption.
  cbn [session_state sent page].
  rewrite main_eq. cbn [session_state sent page].
  rewrite generate_section_off by reflexivity.
  rewrite (display_section_idle p _ _ fresh_text);
    [| apply lookup_insert_eq | reflexivity].
  eexists. split; [reflexivity |].
  cbn [page]. apply in_or_app. right. right. left. reflexivity.
Qed.

(** "Regenerate" with a provider that fails. *)
Lemma click_regenerate_fail (old : str) (x : PyExn) :
  generate_btn wd = false -> regenerate_btn wd = true ->
  session_state w !! last_response = Some old ->
  outcome_of_reply
    (p (length (sent w)) (completion_request (stored_enquiry w) (tone wd)))
  = Raised x ->
  exists pg,
    interaction p wd w =
    (Returned tt,
     mkWorld (session_state w)
             (sent w ++ [completion_request (stored_enquiry w) (tone wd)])
             pg)
    /\ In (st_error (ERR_REGENERATE ++ exn_str x)) pg
    /\ In (st_markdown old) pg.
Proof.
  intros Hg Hr Hs Hfail.
  unfold interaction, script_run. rewrite main_eq.
  cbn [session_state sent page].
  rewrite generate_section_off by assumption.
  rewrite (display_section_fail p wd _ old x) by assumption.
  eexists. split; [reflexivity |]. split.
  - apply in_or_app. right. apply in_or_app. right. right. left.
    reflexivity.
  - apply in_or_app. right. apply in_or_app. left. right. left.
    reflexivity.
Qed.

(** "Regenerate" sends the stored enquiry with the tone now selected,
    whatever the provider then does. *)
Lemma click_regenerate_sent (old : str) :
  generate_btn wd = false -> regenerate_btn wd = true ->
  session_state w !! last_response = Some old ->
  sent (snd (interaction p wd w))
  = sent w ++ [completion_request (stored_enquiry w) (tone wd)].
Proof.
  intros Hg Hr Hs.
  destruct (outcome_of_reply
              (p (length (sent w))
                 (completion_request (stored_enquiry w) (tone wd))))
    as [fresh_text|x|] eqn:Hreply.
  - destruct (click_regenerate_ok old fresh_text Hg Hr Hs Hreply)
      as (pg & -> & _).
    reflexivity.
  - destruct (click_regenerate_fail old x Hg Hr Hs Hreply)
      as (pg & -> & _).
    reflexivity.
  - exfalso. exact (outcome_of_reply_not_rerun _ Hreply).
Qed.

(** Without a click on "Generate Response" the stored enquiry stays. *)
Lemma last_enquiry_kept :
  generate_btn wd = false ->
  session_state (snd (interaction p wd w)) !! last_enquiry
  = session_state w !! last_enquiry.
Proof.
  intros Hg.
  destruct (regenerate_btn wd) eqn:Hr.
  2:{ unfold interaction.
      destruct (script_run_step p wd w)
        as (o & w1 & Hrun & _ & _ & Hret & Hsame).
      rewrite Hrun, (Hret Hr). cbn [snd].
      destruct (Hsame Hg Hr) as [-> _]. reflexivity. }
  destruct (session_state w !! last_response) as [old|] eqn:Hs.
  2:{ unfold interaction, script_run. rewrite main_eq.
      cbn [session_state sent page].
      rewrite generate_section_off by assumption.
      match goal with
      | |- context [display_section p wd ?w0] =>
        destruct (display_section_empty p wd w0 Hs) as [ev Hev]; rewrite Hev
      end.
      reflexivity. }
  destruct (outcome_of_reply
              (p (length (sent w))
                 (completion_request (stored_enquiry w) (tone wd))))
    as [fresh_text|x|] eqn:Hreply.
  - destruct (click_regenerate_ok old fresh_text Hg Hr Hs Hreply)
      as (pg & -> & _).
    cbn [snd session_state].
    apply lookup_insert_ne, keys_distinct.
  - destruct (click_regenerate_fail old x Hg Hr Hs Hreply)
      as (pg & -> & _).
    reflexivity.
  - exfalso. exact (outcome_of_reply_not_rerun _ Hreply).
Qed.

End Clicks.

(** ** The composer *)

Lemma tone_instruction_label (t : Tone) :
  tone_instruction (tone_label t) = tone_fragment t.
Proof. destruct t; vm_compute; reflexivity. Qed.

Lemma tone_instruction_unknown (tone : str) :
  unknown_tone tone -> tone_instruction tone = [].
Proof.
  intros Hu. unfold tone_instruction.
  repeat case_decide; try reflexivity; exfalso.
  - exact (Hu FriendlyCasual ltac:(assumption)).
  - exact (Hu FormalProfessional ltac:(assumption)).
  - exact (Hu EmpatheticSupportive ltac:(assumption)).
Qed.

Lemma tone_instruction_cases (tone : str) :
  tone_instruction tone = [] \/ exists t, tone_instruction tone = tone_fragment t.
Proof.
  unfold tone_instruction.
  repeat case_decide; [right | right | right | left; reflexivity].
  - exists FriendlyCasual. unfold tone_fragment. reflexivity.
  - exists FormalProfessional. unfold tone_fragment. reflexivity.
  - exists EmpatheticSupportive. unfold tone_fragment. reflexivity.
Qed.

(** C1: for every non-empty enquiry and every tone of the enumeration, the
    message-building part of [generate_response] produces exactly two
    messages: a system message whose content is the policy prompt, two
    line feeds and the tone's fragment, then a user message whose content
    is the enquiry; these are the messages of the request that leaves. *)
Theorem composer_two_messages
  (p : Provider) (w : World) (e : str) (t : Tone) :
  e <> [] ->
  compose_messages e (tone_label t) =
    [ {| role := py "system";
         content := SYSTEM_PROMPT ++ [LF; LF] ++ tone_fragment t |};
      {| role := py "user"; content := e |} ]
  /\ length (compose_messages e (tone_label t)) = 2%nat
  /\ exists r,
       sent (snd (generate_response p e (tone_label t) w)) = sent w ++ [r]
       /\ messages r = compose_messages e (tone_label t).
Proof.
  intros _. split; [| split].
  - unfold compose_messages. rewrite tone_instruction_label. reflexivity.
  - reflexivity.
  - rewrite generate_response_eq. cbn [snd sent]. eexists.
    split; reflexivity.
Qed.

(** The end-to-end scenario of the specification: a formal reply to a
    report of damp patches. *)
Lemma composer_two_messages_witness :
  let e := py "Hi, I see damp patches on my wall after rain." in
  e <> []
  /\ compose_messages e (tone_label FormalProfessional) =
       [ {| role := py "system";
            content := SYSTEM_PROMPT ++ [LF; LF]
                       ++ tone_fragment FormalProfessional |};
         {| role := py "user"; content := e |} ].
Proof.
  intros e.
  assert (He : e <> []) by (vm_compute; discriminate).
  split; [exact He |].
  exact (proj1 (composer_two_messages (answering []) fresh e
                  FormalProfessional He)).
Defined.

(** C3: for a tone outside the enumerated set the composer still builds
    the two messages; the system message is the policy prompt and the two
    line feeds with no fragment after them, and the call returns as soon as
    the provider answers. *)
Theorem unknown_tone_is_tolerated
  (p : Provider) (w : World) (e tone : str) :
  unknown_tone tone ->
  tone_instruction tone = []
  /\ compose_messages e tone =
       [ {| role := py "system"; content := SYSTEM_PROMPT ++ [LF; LF] |};
         {| role := py "user"; content := e |} ]
  /\ (forall ch rest,
        p (length (sent w)) (completion_request e tone)
        = CreateReturns (mkChatCompletion (ch :: rest)) ->
        fst (generate_response p e tone w) = Returned (message_content ch)).
Proof.
  intros Hu. pose proof (tone_instruction_unknown tone Hu) as Hi.
  split; [exact Hi | split].
  - unfold compose_messages. rewrite Hi. reflexivity.
  - intros ch rest Hp. rewrite generate_response_eq, Hp. reflexivity.
Qed.

Lemma unknown_tone_is_tolerated_witness :
  unknown_tone (py "Sarcastic")
  /\ compose_messages (py "My roof leaks") (py "Sarcastic") =
       [ {| role := py "system"; content := SYSTEM_PROMPT ++ [LF; LF] |};
         {| role := py "user"; content := py "My roof leaks" |} ].
Proof.
  assert (Hu : unknown_tone (py "Sarcastic"))
    by (intros t; destruct t; vm_compute; discriminate).
  split; [exact Hu |].
  exact (proj1 (proj2 (unknown_tone_is_tolerated
                         (answering []) fresh (py "My roof leaks")
                         (py "Sarcastic") Hu))).
Defined.

(** ** The completion call *)




Lemma well_formed_request_fixed_any (e t : str) :
  fixed_parameters (completion_request e t).
Proof.
  unfold fixed_parameters.
  cbn [model temperature top_p max_tokens completion_request].
  repeat split; vm_compute; reflexivity.
Qed.

Lemma well_formed_request_fixed (r : Request) :
  well_formed_request r -> fixed_parameters r.
Proof. intros (e & t & -> & _). apply well_formed_request_fixed_any. Qed.

(** C6: every request a session has sent carries the model identifier,
    temperature 0.5, top-p 0.9 and 1024 maximum tokens, and so does the
    request of any call of [generate_response], whatever the enquiry, the
    tone and the world. *)
Theorem request_parameters_are_fixed (p : Provider) (w : World) :
  reachable p w ->
  Forall fixed_parameters (sent w)
  /\ (forall e t w0, exists r,
        sent (snd (generate_response p e t w0)) = sent w0 ++ [r]
        /\ fixed_parameters r).
Proof.
  intros Hreach. split.
  - destruct (reachable_sound p w Hreach) as [_ Hall].
    eapply Forall_impl; [exact Hall |].
    intros r Hr. apply well_formed_request_fixed, Hr.
  - intros e t w0. rewrite generate_response_eq. cbn [snd sent].
    eexists. split; [reflexivity |].
    apply well_formed_request_fixed_any.
Qed.

Lemma request_parameters_are_fixed_witness :
  let p := answering (py "Thank you for reaching out.") in
  let w := snd (interaction p
                  (click_generate (py "Water drips from the ceiling")
                                  (py "Friendly & Casual")) fresh) in
  reachable p w /\ length (sent w) = 1%nat /\ Forall fixed_parameters (sent w).
Proof.
  intros p w.
  assert (Hreach : reachable p w)
    by (apply reachable_step, reachable_fresh).
  split; [exact Hreach |].
  split; [vm_compute; reflexivity |].
  exact (proj1 (request_parameters_are_fixed p w Hreach)).
Defined.

(** C8: in every request a session has sent, the first message is the
    system message and its content starts with the policy prompt; apart
    from the fragment after the two line feeds (empty, or one of the three
    of the table) and the text of the user message, the request is
    constant. *)
Theorem policy_prompt_leads_every_request (p : Provider) (w : World) :
  reachable p w ->
  Forall
    (fun r =>
       exists fragment user_text,
         r = {| model := MODEL_ID;
                messages :=
                  [ {| role := py "system";
                       content := SYSTEM_PROMPT ++ [LF; LF] ++ fragment |};
                    {| role := py "user"; content := user_text |} ];
                temperature := 0.5%Q;
                max_tokens := 1024%Z;
                top_p := 0.9%Q |}
         /\ (fragment = [] \/ exists t, fragment = tone_fragment t)
         /\ (forall m rest, messages r = m :: rest ->
               role m = py "system" /\ SYSTEM_PROMPT `prefix_of` content m))
    (sent w).
Proof.
  intros Hreach. destruct (reachable_sound p w Hreach) as [_ Hall].
  eapply Forall_impl; [exact Hall |].
  intros r (e & t & -> & _).
  exists (tone_instruction t), e.
  split; [reflexivity |].
  split; [apply tone_instruction_cases |].
  intros m rest [= <- _]. split; [reflexivity |].
  cbn [content]. eexists. reflexivity.
Qed.

Lemma policy_prompt_leads_every_request_witness :
  let p := answering (py "Thank you for reaching out.") in
  let w := snd (interaction p
                  (click_generate (py "Water drips from the ceiling")
                                  (py "Empathetic & Supportive")) fresh) in
  reachable p w
  /\ length (sent w) = 1%nat
  /\ Forall (fun r => exists m rest, messages r = m :: rest
                      /\ SYSTEM_PROMPT `prefix_of` content m) (sent w).
Proof.
  intros p w.
  assert (Hreach : reachable p w)
    by (apply reachable_step, reachable_fresh).
  split; [exact Hreach |].
  split; [vm_compute; reflexivity |].
  eapply Forall_impl;
    [exact (policy_prompt_leads_every_request p w Hreach) |].
  intros r (fragment & user_text & -> & _ & Hfirst).
  do 2 eexists. split; [reflexivity |].
  exact (proj2 (Hfirst _ _ eq_refl)).
Defined.

(** ** The session shell *)

(** C2: a click on "Generate Response" with an empty or whitespace-only
    enquiry sends nothing to the provider, leaves the session dictionary
    as it was and draws the warning; the generate section does so whatever
    the other button reads. *)
Theorem blank_enquiry_is_refused
  (p : Provider) (e t : str) (w : World) :
  blank e ->
  let out := interaction p (click_generate e t) w in
  fst out = Returned tt
  /\ sent (snd out) = sent w
  /\ session_state (snd out) = session_state w
  /\ In (st_warning WARN_EMPTY) (page (snd out))
  /\ (forall regen,
        generate_section p (mkWidgets e t true regen) w
        = (Returned tt,
           mkWorld (session_state w) (sent w)
                   (page w ++ [st_warning WARN_EMPTY]))).
Proof.
  intros Hblank out. subst out.
  destruct (click_generate_blank p (click_generate e t) w eq_refl eq_refl Hblank)
    as (pg & -> & Hpg).
  cbn [fst snd sent session_state page].
  repeat (split; [first [reflexivity | exact Hpg] |]).
  intros regen. apply generate_section_blank; [reflexivity | exact Hblank].
Qed.

(** A space, a tab, a line feed and a no-break space, typed after a first
    response was drafted. *)
Lemma blank_enquiry_is_refused_witness :
  let p := answering (py "Thank you for reaching out.") in
  let w := snd (interaction p
                  (click_generate (py "Water drips from the ceiling")
                                  (py "Friendly & Casual")) fresh) in
  let out := interaction p (click_generate [32; 9; 10; 160]
                                           (py "Friendly & Casual")) w in
  blank [32; 9; 10; 160]
  /\ sent (snd out) = sent w
  /\ In (st_warning WARN_EMPTY) (page (snd out)).
Proof.
  intros p w out.
  assert (Hb : blank [32; 9; 10; 160]) by (repeat constructor).
  split; [exact Hb |].
  destruct (blank_enquiry_is_refused p [32; 9; 10; 160]
              (py "Friendly & Casual") w Hb)
    as (_ & Hsent & _ & Hwarn & _).
  split; [exact Hsent | exact Hwarn].
Defined.

(** C4: when the provider call of a generation or of a regeneration fails,
    the session dictionary (and with it the stored response and the stored
    enquiry) is left as it was, an error box carrying the text of the
    exception is drawn, and the stored response, if any, is still shown. *)
Theorem provider_failure_keeps_session
  (p : Provider) (a : Action) (e t : str) (w : World) (x : PyExn) :
  reaches_provider a e w ->
  outcome_of_reply (p (length (sent w)) (request_of a e t w)) = Raised x ->
  let out := interaction p (widgets_of a e t) w in
  fst out = Returned tt
  /\ session_state (snd out) = session_state w
  /\ sent (snd out) = sent w ++ [request_of a e t w]
  /\ In (st_error (error_label a ++ exn_str x)) (page (snd out))
  /\ (forall old, session_state w !! last_response = Some old ->
                  In (st_markdown old) (page (snd out))).
Proof.
  intros Hreach Hfail out. subst out.
  destruct a; cbn [widgets_of request_of error_label reaches_provider] in *.
  - destruct (click_generate_fail p (click_generate e t) w x
                eq_refl eq_refl Hreach Hfail)
      as (pg & -> & Herr & Hold).
    cbn [fst snd sent session_state page].
    repeat (split; [first [reflexivity | exact Herr] |]). exact Hold.
  - destruct Hreach as [old Hs].
    destruct (click_regenerate_fail p (click_regenerate e t) w old x
                eq_refl eq_refl Hs Hfail)
      as (pg & -> & Herr & Hold).
    cbn [fst snd sent session_state page].
    repeat (split; [first [reflexivity | exact Herr] |]).
    intros old' Hs'. rewrite Hs in Hs'. injection Hs' as <-. exact Hold.
Qed.

(** A first response is drafted, then the provider fails on both a
    regeneration and a new generation. *)
Lemma provider_failure_keeps_session_witness :
  let p := answering_once
             (py "Thank you for reaching out.") (py "rate limit reached") in
  let e := py "Water drips from the ceiling" in
  let t := py "Friendly & Casual" in
  let w := snd (interaction p (click_generate e t) fresh) in
  let x := mkExn (py "rate limit reached") in
  (reaches_provider Regenerate e w
   /\ outcome_of_reply (p (length (sent w)) (request_of Regenerate e t w))
      = Raised x
   /\ session_state (snd (interaction p (click_regenerate e t) w))
      = session_state w)
  /\ (reaches_provider Generate e w
      /\ outcome_of_reply (p (length (sent w)) (request_of Generate e t w))
         = Raised x
      /\ session_state (snd (interaction p (click_generate e t) w))
         = session_state w).
Proof.
  intros p e t w x.
  assert (Hr : reaches_provider Regenerate e w)
    by (eexists; vm_compute; reflexivity).
  assert (Hg : reaches_provider Generate e w).
  { intros Hb. apply strip_nil_iff in Hb. vm_compute in Hb. discriminate Hb. }
  assert (Hfr : outcome_of_reply
                  (p (length (sent w)) (request_of Regenerate e t w))
                = Raised x) by (vm_compute; reflexivity).
  assert (Hfg : outcome_of_reply
                  (p (length (sent w)) (request_of Generate e t w))
                = Raised x) by (vm_compute; reflexivity).
  split.
  - split; [exact Hr | split; [exact Hfr |]].
    exact (proj1 (proj2 (provider_failure_keeps_session
                           p Regenerate e t w x Hr Hfr))).
  - split; [exact Hg | split; [exact Hfg |]].
    exact (proj1 (proj2 (provider_failure_keeps_session
                           p Generate e t w x Hg Hfg))).
Defined.

(** C5: after a generation for an enquiry and a tone, a regeneration with
    the same tone sends a request identical to the one the generation sent
    (same parameters, same two messages), whatever was typed since and
    whatever the provider answers. *)
Theorem regeneration_repeats_request
  (p p' : Provider) (e e' t text : str) (w : World) :
  ~ blank e ->
  outcome_of_reply (p (length (sent w)) (completion_request e t))
  = Returned text ->
  let w1 := snd (interaction p (click_generate e t) w) in
  let w2 := snd (interaction p' (click_regenerate e' t) w1) in
  exists r1 r2,
    sent w1 = sent w ++ [r1]
    /\ sent w2 = sent w1 ++ [r2]
    /\ r1 = r2
    /\ messages r1 = compose_messages e t
    /\ length (messages r1) = 2%nat.
Proof.
  intros Hnb Hok w1 w2. subst w2 w1.
  destruct (click_generate_ok p (click_generate e t) w text
              eq_refl eq_refl Hnb Hok)
    as (pg & -> & _).
  cbn [snd enquiry tone click_generate].
  match goal with
  | |- context [interaction p' _ ?W] => set (w1 := W)
  end.
  assert (Hs : session_state w1 !! last_response = Some text)
    by apply lookup_after_generate.
  assert (He : stored_enquiry w1 = e).
  { unfold stored_enquiry, w1. cbn [session_state].
    rewrite lookup_insert_eq. reflexivity. }
  pose proof (click_regenerate_sent p' (click_regenerate e' t) w1 text
                eq_refl eq_refl Hs) as Hsent.
  rewrite He in Hsent. cbn [tone click_regenerate] in Hsent.
  exists (completion_request e t), (completion_request e t).
  repeat split; [exact Hsent].
Qed.

Lemma regeneration_repeats_request_witness :
  let p := answering_once
             (py "Thank you for reaching out.") (py "rate limit reached") in
  let e := py "Water drips from the ceiling" in
  let t := py "Formal & Professional" in
  let w1 := snd (interaction p (click_generate e t) fresh) in
  let w2 := snd (interaction p (click_regenerate (py "typed later") t) w1) in
  ~ blank e
  /\ outcome_of_reply (p (length (sent fresh)) (completion_request e t))
     = Returned (py "Thank you for reaching out.")
  /\ exists r, sent w2 = [r; r].
Proof.
  intros p e t w1 w2.
  assert (Hnb : ~ blank e).
  { intros Hb. apply strip_nil_iff in Hb. vm_compute in Hb. discriminate Hb. }
  assert (Hok : outcome_of_reply
                  (p (length (sent fresh)) (completion_request e t))
                = Returned (py "Thank you for reaching out."))
    by (vm_compute; reflexivity).
  split; [exact Hnb | split; [exact Hok |]].
  destruct (regeneration_repeats_request p p e (py "typed later") t
              (py "Thank you for reaching out.") fresh Hnb Hok)
    as (r1 & r2 & H1 & H2 & Heq & _).
  exists r1. subst w2 w1. rewrite H2, H1, <- Heq. reflexivity.
Defined.

Lemma well_formed_request_sends_enquiry (r : Request) :
  well_formed_request r -> sends_enquiry r.
Proof.
  intros (e & t & -> & Hne).
  unfold sends_enquiry, completion_request, compose_messages.
  cbn [messages]. do 2 eexists.
  split; [reflexivity |]. split; [reflexivity | exact Hne].
Qed.

(** C9: in every reachable world, a stored response comes with a stored
    enquiry that is not empty after stripping; every request sent so far
    carries a non-blank user text, and so does the request a regeneration
    sends from that world. *)
Theorem stored_response_has_enquiry (p : Provider) (w : World) :
  reachable p w ->
  (is_Some (session_state w !! last_response) ->
   exists e, session_state w !! last_enquiry = Some e
             /\ strip e <> [] /\ stored_enquiry w = e)
  /\ Forall sends_enquiry (sent w)
  /\ (forall e' t,
        is_Some (session_state w !! last_response) ->
        exists r,
          sent (snd (interaction p (click_regenerate e' t) w)) = sent w ++ [r]
          /\ sends_enquiry r).
Proof.
  intros Hreach. destruct (reachable_sound p w Hreach) as [Hinv Hall].
  split; [| split].
  - intros Hs. destruct (Hinv Hs) as (e & He & Hne).
    exists e. split; [exact He | split; [exact Hne |]].
    unfold stored_enquiry. rewrite He. reflexivity.
  - eapply Forall_impl; [exact Hall |].
    exact well_formed_request_sends_enquiry.
  - intros e' t Hs. pose proof (stored_enquiry_sound w Hinv Hs) as Hne.
    destruct Hs as [old Hs].
    eexists. split.
    + exact (click_regenerate_sent p (click_regenerate e' t) w old
               eq_refl eq_refl Hs).
    + apply well_formed_request_sends_enquiry.
      do 2 eexists. split; [reflexivity | exact Hne].
Qed.

(** A generation, a blank generation attempt and a regeneration. *)
Lemma stored_response_has_enquiry_witness :
  let p := answering (py "Thank you for reaching out.") in
  let t := py "Friendly & Casual" in
  let w1 := snd (interaction p
                   (click_generate (py "Water drips from the ceiling") t)
                   fresh) in
  let w2 := snd (interaction p (click_generate [32; 32] t) w1) in
  let w3 := snd (interaction p (click_regenerate [] t) w2) in
  reachable p w3
  /\ length (sent w3) = 2%nat
  /\ session_state w3 !! last_enquiry
     = Some (py "Water drips from the ceiling")
  /\ Forall sends_enquiry (sent w3).
Proof.
  intros p t w1 w2 w3.
  assert (Hreach : reachable p w3)
    by (do 3 apply reachable_step; apply reachable_fresh).
  split; [exact Hreach |].
  split; [vm_compute; reflexivity |].
  split; [vm_compute; reflexivity |].
  exact (proj1 (proj2 (stored_response_has_enquiry p w3 Hreach))).
Defined.

(** C10: a regeneration that succeeds replaces the value under
    "last_response" and nothing else: "last_enquiry" and every other key
    keep their value; and no interaction without a click on "Generate
    Response" changes "last_enquiry". *)
Theorem regeneration_overwrites_response_only
  (p : Provider) (e t old fresh_text : str) (w : World) :
  session_state w !! last_response = Some old ->
  outcome_of_reply
    (p (length (sent w)) (completion_request (stored_enquiry w) t))
  = Returned fresh_text ->
  let w' := snd (interaction p (click_regenerate e t) w) in
  session_state w' = <[last_response := fresh_text]> (session_state w)
  /\ session_state w' !! last_response = Some fresh_text
  /\ session_state w' !! last_enquiry = session_state w !! last_enquiry
  /\ (forall k, k <> last_response ->
                session_state w' !! k = session_state w !! k)
  /\ (forall p0 wd w0,
        generate_btn wd = false ->
        session_state (snd (interaction p0 wd w0)) !! last_enquiry
        = session_state w0 !! last_enquiry).
Proof.
  intros Hs Hok w'. subst w'.
  destruct (click_regenerate_ok p (click_regenerate e t) w old fresh_text
              eq_refl eq_refl Hs Hok)
    as (pg & -> & _).
  cbn [snd session_state].
  split; [reflexivity |].
  split; [apply lookup_insert_eq |].
  split; [apply lookup_insert_ne, keys_distinct |].
  split.
  - intros k Hk. apply lookup_insert_ne. congruence.
  - intros p0 wd w0 Hg. apply last_enquiry_kept, Hg.
Qed.

Lemma regeneration_overwrites_response_only_witness :
  let p := fun (n : nat) (_ : Request) =>
             CreateReturns
               (mkChatCompletion [mkChoice (py "Draft " ++ [48 + N.of_nat n])]) in
  let e := py "Water drips from the ceiling" in
  let t := py "Friendly & Casual" in
  let w := snd (interaction p (click_generate e t) fresh) in
  let w' := snd (interaction p (click_regenerate [] t) w) in
  session_state w !! last_response = Some (py "Draft 0")
  /\ outcome_of_reply
       (p (length (sent w)) (completion_request (stored_enquiry w) t))
     = Returned (py "Draft 1")
  /\ session_state w' !! last_response = Some (py "Draft 1")
  /\ session_state w' !! last_enquiry = Some e.
Proof.
  intros p e t w w'.
  assert (Hs : session_state w !! last_response = Some (py "Draft 0"))
    by (vm_compute; reflexivity).
  assert (Hok : outcome_of_reply
                  (p (length (sent w))
                     (completion_request (stored_enquiry w) t))
                = Returned (py "Draft 1")) by (vm_compute; reflexivity).
  split; [exact Hs | split; [exact Hok |]].
  destruct (regeneration_overwrites_response_only p [] t (py "Draft 0")
              (py "Draft 1") w Hs Hok)
    as (_ & Hresp & Henq & _).
  split; [exact Hresp |].
  subst w'. rewrite Henq. vm_compute. reflexivity.
Defined.

(** * Further properties of the script *)

(** ** Every execution follows one of the branches *)

Lemma generate_section_cases (p : Provider) (wd : Widgets) (w : World) :
  exists w1,
    generate_section p wd w = (Returned tt, w1) /\ gen_case p wd w w1.
Proof.
  destruct (generate_btn wd) eqn:Hb.
  2:{ exists w. split; [apply generate_section_off, Hb | apply gen_off, Hb]. }
  destruct (truthy (strip (enquiry wd))) eqn:Ht.
  2:{ apply truthy_strip_false in Ht. eexists.
      split; [apply generate_section_blank | apply gen_blank]; assumption. }
  apply truthy_strip_true in Ht.
  destruct (outcome_of_reply
              (p (length (sent w))
                 (completion_request (enquiry wd) (tone wd))))
    as [text|x|] eqn:Hr.
  - eexists. split; [apply (generate_section_ok p wd w text)
                    | apply (gen_ok p wd w text)]; assumption.
  - eexists. split; [apply (generate_section_fail p wd w x)
                    | apply (gen_fail p wd w x)]; assumption.
  - exfalso. exact (outcome_of_reply_not_rerun _ Hr).
Qed.

Lemma display_section_cases (p : Provider) (wd : Widgets) (w : World) :
  exists o w1,
    display_section p wd w = (o, w1) /\ disp_case p wd w o w1.
Proof.
  destruct (session_state w !! last_response) as [text|] eqn:Hs.
  2:{ destruct (display_section_empty p wd w Hs) as [hint Hh].
      do 2 eexists. split; [exact Hh | apply disp_empty, Hs]. }
  destruct (regenerate_btn wd) eqn:Hb.
  2:{ do 2 eexists. split; [apply (display_section_idle p wd w text)
                           | apply (disp_idle p wd w text)]; assumption. }
  destruct (outcome_of_reply
              (p (length (sent w))
                 (completion_request (stored_enquiry w) (tone wd))))
    as [fresh_text|x|] eqn:Hr.
  - do 2 eexists. split; [apply (display_section_ok p wd w text fresh_text)
                         | apply (disp_ok p wd w text fresh_text)]; assumption.
  - do 2 eexists. split; [apply (display_section_fail p wd w text x)
                         | apply (disp_fail p wd w text x)]; assumption.
  - exfalso. exact (outcome_of_reply_not_rerun _ Hr).
Qed.

Lemma script_run_cases (p : Provider) (wd : Widgets) (w : World) :
  exists o w2, script_run p wd w = (o, w2) /\ run_case p wd w o w2.
Proof.
  unfold script_run. rewrite main_eq. cbn [session_state sent page app].
  fold (headed w).
  destruct (generate_section_cases p wd (headed w)) as (w1 & Hg & Hgc).
  rewrite Hg.
  destruct (display_section_cases p wd w1) as (o & w2 & Hd & Hdc).
  exists o, w2. split; [exact Hd |]. exact (run_through p wd w w1 o w2 Hgc Hdc).
Qed.

Lemma run_case_outcome (p : Provider) (wd : Widgets) (w w2 : World)
      (o : Outcome unit) :
  run_case p wd w o w2 ->
  (o = Returned tt \/ o = Rerun)
  /\ (o = Rerun -> regenerate_btn wd = true).
Proof.
  intros [w1 o' w2' _ Hd].
  destruct Hd; split; auto; discriminate.
Qed.

Lemma interaction_cases (p : Provider) (wd : Widgets) (w : World) :
  exists w',
    interaction p wd w = (Returned tt, w') /\ interaction_case p wd w w'.
Proof.
  unfold interaction.
  destruct (script_run_cases p wd w) as (o & w1 & Hrun & Hc).
  rewrite Hrun.
  destruct (run_case_outcome p wd w w1 o Hc) as [[-> | ->] _].
  - exists w1. split; [reflexivity | apply interaction_once, Hc].
  - destruct (script_run_cases p (released wd) w1) as (o2 & w2 & Hrun2 & Hc2).
    rewrite Hrun2.
    destruct (run_case_outcome p (released wd) w1 w2 o2 Hc2) as [[-> | ->] Hre].
    + exists w2. split; [reflexivity |].
      exact (interaction_rerun p wd w w1 w2 Hc Hc2).
    + specialize (Hre eq_refl). discriminate Hre.
Qed.

(** ** What the branches change *)

Lemma gen_case_effect (p : Provider) (wd : Widgets) (w w1 : World) :
  gen_case p wd w w1 ->
  (exists reqs,
     sent w1 = sent w ++ reqs
     /\ (length reqs <= cost (generate_btn wd))%nat)
  /\ (generate_btn wd = false -> w1 = w)
  /\ (is_Some (session_state w !! last_response) ->
      is_Some (session_state w1 !! last_response))
  /\ (session_state w1 = session_state w
      \/ exists text,
           generate_btn wd = true /\ ~ blank (enquiry wd)
           /\ outcome_of_reply
                (p (length (sent w))
                   (completion_request (enquiry wd) (tone wd)))
              = Returned text
           /\ session_state w1
              = <[last_enquiry := enquiry wd]>
                  (<[last_response := text]> (session_state w))).
Proof.
  intros Hc. destruct Hc as [Hb | Hb Hbl | text Hb Hnb Hr | x Hb Hnb Hr];
    cbn [session_state sent page]; rewrite ?Hb; cbn [cost].
  - split; [exists []; rewrite app_nil_r; split; [reflexivity | cbn [length]; lia] |].
    repeat split; auto.
  - split; [exists []; rewrite app_nil_r; split; [reflexivity | cbn [length]; lia] |].
    repeat split; [discriminate | auto | auto].
  - split; [eexists; split; [reflexivity | cbn [length]; lia] |].
    split; [discriminate |]. split.
    + intros _. rewrite lookup_after_generate. eauto.
    + right. exists text. auto.
  - split; [eexists; split; [reflexivity | cbn [length]; lia] |].
    repeat split; [discriminate | auto | auto].
Qed.

Lemma disp_case_effect (p : Provider) (wd : Widgets) (w w1 : World)
      (o : Outcome unit) :
  disp_case p wd w o w1 ->
  (exists reqs,
     sent w1 = sent w ++ reqs
     /\ (length reqs <= cost (regenerate_btn wd))%nat)
  /\ (regenerate_btn wd = false ->
      o = Returned tt /\ session_state w1 = session_state w
      /\ sent w1 = sent w)
  /\ (session_state w !! last_response = None ->
      o = Returned tt /\ session_state w1 = session_state w
      /\ sent w1 = sent w)
  /\ (session_state w1 = session_state w
      \/ exists old fresh_text,
           session_state w !! last_response = Some old
           /\ outcome_of_reply
                (p (length (sent w))
                   (completion_request (stored_enquiry w) (tone wd)))
              = Returned fresh_text
           /\ session_state w1
              = <[last_response := fresh_text]> (session_state w)).
Proof.
  intros Hc.
  destruct Hc as [hint Hs | text Hs Hb | text fr Hs Hb Hr | text x Hs Hb Hr];
    cbn [session_state sent page]; rewrite ?Hb; cbn [cost].
  - split; [exists []; rewrite app_nil_r; split; [reflexivity | cbn [length]; lia] |].
    repeat split; auto.
  - split; [exists []; rewrite app_nil_r; split; [reflexivity | cbn [length]; lia] |].
    repeat split; auto.
  - split; [eexists; split; [reflexivity | cbn [length]; lia] |].
    split; [discriminate |]. split; [rewrite Hs; discriminate |].
    right. exists text, fr. auto.
  - split; [eexists; split; [reflexivity | cbn [length]; lia] |].
    split; [discriminate |]. split; [rewrite Hs; discriminate |]. auto.
Qed.

(** The execution a rerun starts only draws. *)
Lemma released_run_effect (p : Provider) (wd : Widgets) (w w2 : World)
      (o : Outcome unit) :
  run_case p (released wd) w o w2 ->
  session_state w2 = session_state w /\ sent w2 = sent w.
Proof.
  intros [w1 o' w2' Hg Hd].
  destruct (gen_case_effect _ _ _ _ Hg) as (_ & Hoff & _).
  rewrite (Hoff eq_refl) in Hd.
  destruct (disp_case_effect _ _ _ _ _ Hd) as (_ & Hidle & _).
  destruct (Hidle eq_refl) as (_ & Hst & Hse).
  rewrite Hst, Hse. split; reflexivity.
Qed.

(** ** The script never fails and never calls the provider unasked *)

(** X2: no exception of the provider call escapes the script: every
    interaction ends normally, whatever the provider does.  An execution
    asks for a rerun only after a click on "Regenerate" whose provider call
    succeeded: the last request sent was answered, and that answer is the
    stored response.  Without a click on "Generate Response", it asks for
    a rerun exactly when "Regenerate" reads pressed, a response is stored
    and the provider answers the request for the stored enquiry. *)
Theorem script_never_raises (p : Provider) (wd : Widgets) (w : World) :
  fst (interaction p wd w) = Returned tt
  /\ (forall x, fst (script_run p wd w) <> Raised x)
  /\ (fst (script_run p wd w) = Rerun ->
      regenerate_btn wd = true
      /\ exists earlier req fresh_text,
           sent (snd (script_run p wd w)) = earlier ++ [req]
           /\ outcome_of_reply (p (length earlier) req) = Returned fresh_text
           /\ session_state (snd (script_run p wd w)) !! last_response
              = Some fresh_text)
  /\ (generate_btn wd = false ->
      (fst (script_run p wd w) = Rerun
       <-> regenerate_btn wd = true
           /\ is_Some (session_state w !! last_response)
           /\ exists fresh_text,
                outcome_of_reply
                  (p (length (sent w))
                     (completion_request (stored_enquiry w) (tone wd)))
                = Returned fresh_text)).
Proof.
  split; [| split; [| split]].
  - destruct (interaction_cases p wd w) as (w' & -> & _). reflexivity.
  - intros x. destruct (script_run_cases p wd w) as (o & w2 & -> & Hc).
    destruct (run_case_outcome _ _ _ _ _ Hc) as [[-> | ->] _]; discriminate.
  - destruct (script_run_cases p wd w) as (o & w2 & -> & Hc).
    cbn [fst snd]. intros Ho.
    destruct (run_case_outcome _ _ _ _ _ Hc) as [_ Hre].
    split; [exact (Hre Ho) |].
    destruct Hc as [w1 o w2 _ Hd].
    destruct Hd as [hint Hs | text Hs Hb | text fr Hs Hb Hr | text x Hs Hb Hr];
      try discriminate Ho.
    cbn [session_state sent].
    exists (sent w1), (completion_request (stored_enquiry w1) (tone wd)), fr.
    split; [reflexivity |]. split; [exact Hr | apply lookup_insert_eq].
  - intros Hg. split.
    + destruct (script_run_cases p wd w) as (o & w2 & -> & Hc).
      cbn [fst]. intros Ho.
      destruct Hc as [w1 o w2 Hgc Hd].
      destruct (gen_case_effect _ _ _ _ Hgc) as (_ & Hoff & _).
      rewrite (Hoff Hg) in Hd.
      destruct Hd as [hint Hs | text Hs Hb | text fr Hs Hb Hr | text x Hs Hb Hr];
        try discriminate Ho.
      split; [exact Hb |]. split; [exists text; exact Hs |].
      exists fr. exact Hr.
    + intros (Hb & [old Hs] & fr & Hr).
      unfold script_run. rewrite main_eq. cbn [session_state sent page].
      rewrite generate_section_off by exact Hg.
      rewrite (display_section_ok p wd _ old fr) by assumption.
      reflexivity.
Qed.

(** X3: an interaction appends at most one request per button that reads
    pressed, and never removes or reorders earlier ones; with no button
    pressed it sends nothing and leaves the session dictionary as it
    was. *)
Theorem requests_per_interaction (p : Provider) (wd : Widgets) (w : World) :
  (exists reqs,
     sent (snd (interaction p wd w)) = sent w ++ reqs
     /\ (length reqs <= cost (generate_btn wd) + cost (regenerate_btn wd))%nat)
  /\ (generate_btn wd = false -> regenerate_btn wd = false ->
      sent (snd (interaction p wd w)) = sent w
      /\ session_state (snd (interaction p wd w)) = session_state w).
Proof.
  destruct (interaction_cases p wd w) as (w' & -> & Hc). cbn [snd].
  assert (Hrun : forall o w2,
             run_case p wd w o w2 ->
             (exists reqs,
                sent w2 = sent w ++ reqs
                /\ (length reqs
                    <= cost (generate_btn wd) + cost (regenerate_btn wd))%nat)
             /\ (generate_btn wd = false -> regenerate_btn wd = false ->
                 sent w2 = sent w /\ session_state w2 = session_state w)).
  { intros o w2 [w1 o' w2' Hg Hd].
    destruct (gen_case_effect _ _ _ _ Hg) as ((r1 & Hs1 & Hl1) & Hoff & _).
    destruct (disp_case_effect _ _ _ _ _ Hd)
      as ((r2 & Hs2 & Hl2) & Hidle & _).
    split.
    - exists (r1 ++ r2). split.
      + rewrite Hs2, Hs1, app_assoc. reflexivity.
      + rewrite length_app. lia.
    - intros Hg0 Hr0. destruct (Hidle Hr0) as (_ & Hst & Hse).
      rewrite Hst, Hse, (Hoff Hg0). split; reflexivity. }
  destruct Hc as [w1 Hc | w1 w2 Hc Hc2].
  - exact (Hrun _ _ Hc).
  - destruct (released_run_effect _ _ _ _ _ Hc2) as [-> ->].
    exact (Hrun _ _ Hc).
Qed.

(** ** Invariants of the session dictionary *)

(** The dictionary changes in two ways only: a generation stores a response
    and a non-blank enquiry; a regeneration replaces a stored response. *)
Lemma interaction_state_ind (P : gmap str str -> Prop)
      (p : Provider) (wd : Widgets) (w : World) :
  (forall st e text,
     P st -> ~ blank e ->
     P (<[last_enquiry := e]> (<[last_response := text]> st))) ->
  (forall st old fresh_text,
     P st -> st !! last_response = Some old ->
     P (<[last_response := fresh_text]> st)) ->
  P (session_state w) ->
  P (session_state (snd (interaction p wd w))).
Proof.
  intros Hgen Hregen HP.
  destruct (interaction_cases p wd w) as (w' & -> & Hc). cbn [snd].
  assert (Hrun : forall o w2, run_case p wd w o w2 -> P (session_state w2)).
  { intros o w2 [w1 o' w2' Hg Hd].
    assert (HP1 : P (session_state w1)).
    { destruct (gen_case_effect _ _ _ _ Hg)
        as (_ & _ & _ & [-> | (text & _ & Hnb & _ & ->)]);
        [exact HP | apply Hgen; assumption]. }
    destruct (disp_case_effect _ _ _ _ _ Hd)
      as (_ & _ & _ & [-> | (old & fr & Hs & _ & ->)]);
      [exact HP1 | apply (Hregen _ old); assumption]. }
  destruct Hc as [w1 Hc | w1 w2 Hc Hc2].
  - exact (Hrun _ _ Hc).
  - destruct (released_run_effect _ _ _ _ _ Hc2) as [-> _].
    exact (Hrun _ _ Hc).
Qed.

Lemma reachable_state_ind (P : gmap str str -> Prop)
      (p : Provider) (w : World) :
  P ∅ ->
  (forall st e text,
     P st -> ~ blank e ->
     P (<[last_enquiry := e]> (<[last_response := text]> st))) ->
  (forall st old fresh_text,
     P st -> st !! last_response = Some old ->
     P (<[last_response := fresh_text]> st)) ->
  reachable p w ->
  P (session_state w).
Proof.
  intros Hempty Hgen Hregen. induction 1 as [|wd w _ IH].
  - exact Hempty.
  - apply interaction_state_ind; assumption.
Qed.

(** X4: in every reachable world the session dictionary holds no key but
    "last_response" and "last_enquiry", and holds either both or
    neither. *)
Theorem session_holds_two_keys (p : Provider) (w : World) :
  reachable p w ->
  (forall k, is_Some (session_state w !! k) ->
             k = last_response \/ k = last_enquiry)
  /\ (is_Some (session_state w !! last_response)
      <-> is_Some (session_state w !! last_enquiry)).
Proof.
  apply (reachable_state_ind
           (fun st =>
              (forall k, is_Some (st !! k) ->
                         k = last_response \/ k = last_enquiry)
              /\ (is_Some (st !! last_response)
                  <-> is_Some (st !! last_enquiry)))).
  - split.
    + intros k [v Hv]. rewrite lookup_empty in Hv. discriminate Hv.
    + rewrite !lookup_empty. split; intros [v Hv]; discriminate Hv.
  - intros st e text [Hkeys Hboth] _. split.
    + intros k Hk.
      destruct (decide (k = last_enquiry)) as [-> | Hne]; [auto |].
      destruct (decide (k = last_response)) as [-> | Hnr]; [auto |].
      rewrite !lookup_insert_ne in Hk by congruence. auto.
    + rewrite lookup_after_generate, lookup_insert_eq.
      split; intros _; eauto.
  - intros st old fr [Hkeys Hboth] Hs. split.
    + intros k Hk.
      destruct (decide (k = last_response)) as [-> | Hnr]; [auto |].
      rewrite lookup_insert_ne in Hk by congruence. auto.
    + rewrite lookup_insert_eq.
      rewrite (lookup_insert_ne _ _ _ _ keys_distinct).
      split; [intros _; apply Hboth; eauto | intros _; eauto].
Qed.

Lemma session_holds_two_keys_witness :
  let p := answering (py "Thank you for reaching out.") in
  let t := py "Friendly & Casual" in
  let w1 := snd (interaction p
                   (click_generate (py "Water drips from the ceiling") t)
                   fresh) in
  let w2 := snd (interaction p (click_regenerate [] t) w1) in
  reachable p w2
  /\ session_state w2 !! py "tone" = None
  /\ is_Some (session_state w2 !! last_enquiry).
Proof.
  intros p t w1 w2.
  assert (Hreach : reachable p w2)
    by (do 2 apply reachable_step; apply reachable_fresh).
  split; [exact Hreach |].
  destruct (session_holds_two_keys p w2 Hreach) as [Hkeys Hboth].
  split; [vm_compute; reflexivity |].
  apply Hboth. eexists. vm_compute. reflexivity.
Defined.

(** X7: once a response is stored, no interaction removes it; and a
    response appears in a dictionary that had none only through a click
    on "Generate Response" with a non-blank enquiry that the provider
    answered. *)
Theorem response_stays_available (p : Provider) (wd : Widgets) (w : World) :
  (is_Some (session_state w !! last_response) ->
   is_Some (session_state (snd (interaction p wd w)) !! last_response))
  /\ (session_state w !! last_response = None ->
      is_Some (session_state (snd (interaction p wd w)) !! last_response) ->
      generate_btn wd = true
      /\ ~ blank (enquiry wd)
      /\ exists text,
           outcome_of_reply
             (p (length (sent w))
                (completion_request (enquiry wd) (tone wd)))
           = Returned text).
Proof.
  split.
  - apply (interaction_state_ind
             (fun st => is_Some (st !! last_response))).
    + intros st e text _ _. rewrite lookup_after_generate. eauto.
    + intros st old fr _ _. rewrite lookup_insert_eq. eauto.
  - intros Hnone.
    destruct (interaction_cases p wd w) as (w' & -> & Hc). cbn [snd].
    assert (Hrun : forall o w2,
               run_case p wd w o w2 ->
               is_Some (session_state w2 !! last_response) ->
               generate_btn wd = true
               /\ ~ blank (enquiry wd)
               /\ exists text,
                    outcome_of_reply
                      (p (length (sent w))
                         (completion_request (enquiry wd) (tone wd)))
                    = Returned text).
    { intros o w2 [w1 o' w2' Hg Hd] Hsome.
      destruct (gen_case_effect _ _ _ _ Hg)
        as (_ & _ & _ & [Hsame | (text & Hb & Hnb & Hr & _)]).
      - exfalso.
        destruct (disp_case_effect _ _ _ _ _ Hd) as (_ & _ & Hempty & _).
        assert (Hn1 : session_state w1 !! last_response = None)
          by (rewrite Hsame; exact Hnone).
        destruct (Hempty Hn1) as (_ & Hst & _).
        rewrite Hst, Hn1 in Hsome. destruct Hsome as [v Hv]. discriminate Hv.
      - split; [exact Hb | split; [exact Hnb |]]. exists text. exact Hr. }
    destruct Hc as [w1 Hc | w1 w2 Hc Hc2].
    + exact (Hrun _ _ Hc).
    + destruct (released_run_effect _ _ _ _ _ Hc2) as [-> _].
      exact (Hrun _ _ Hc).
Qed.

(** ** The stored response answers the stored enquiry *)

Lemma gen_case_answers (p : Provider) (wd : Widgets) (w w1 : World) :
  gen_case p wd w w1 ->
  answers_stored_enquiry p w -> answers_stored_enquiry p w1.
Proof.
  intros Hc HA.
  destruct Hc as [Hb | Hb Hbl | text Hb Hnb Hr | x Hb Hnb Hr];
    intros text'; cbn [session_state sent].
  - apply HA.
  - apply HA.
  - rewrite lookup_after_generate. intros [= <-].
    exists (enquiry wd), (tone wd), (length (sent w)).
    split; [apply lookup_insert_eq |].
    split; [apply list_lookup_middle; reflexivity | exact Hr].
  - intros Hs. destruct (HA text' Hs) as (e & t & n & He & Hn & Ho).
    exists e, t, n. split; [exact He |].
    split; [apply lookup_app_l_Some, Hn | exact Ho].
Qed.

Lemma disp_case_answers (p : Provider) (wd : Widgets) (w w1 : World)
      (o : Outcome unit) :
  disp_case p wd w o w1 ->
  answers_stored_enquiry p w -> answers_stored_enquiry p w1.
Proof.
  intros Hc HA.
  destruct Hc as [hint Hs | text Hs Hb | text fr Hs Hb Hr | text x Hs Hb Hr];
    intros text'; cbn [session_state sent].
  - apply HA.
  - apply HA.
  - rewrite lookup_insert_eq. intros [= <-].
    destruct (HA text Hs) as (e & t & n & He & _).
    assert (Hst : stored_enquiry w = e)
      by (unfold stored_enquiry; rewrite He; reflexivity).
    exists e, (tone wd), (length (sent w)).
    split; [rewrite (lookup_insert_ne _ _ _ _ keys_distinct); exact He |].
    rewrite <- Hst.
    split; [apply list_lookup_middle; reflexivity | exact Hr].
  - intros Hs'. destruct (HA text' Hs') as (e & t & n & He & Hn & Ho).
    exists e, t, n. split; [exact He |].
    split; [apply lookup_app_l_Some, Hn | exact Ho].
Qed.

Lemma run_case_answers (p : Provider) (wd : Widgets) (w w2 : World)
      (o : Outcome unit) :
  run_case p wd w o w2 ->
  answers_stored_enquiry p w -> answers_stored_enquiry p w2.
Proof.
  intros [w1 o' w2' Hg Hd] HA.
  apply (disp_case_answers _ _ _ _ _ Hd).
  apply (gen_case_answers _ _ _ _ Hg).
  exact HA.
Qed.

(** X5: in every reachable world the stored response is the text the
    provider returned for a request that is in the log and whose enquiry
    is the stored enquiry: the draft on the page always answers the
    enquiry kept for regeneration. *)
Theorem stored_response_answers_stored_enquiry (p : Provider) (w : World) :
  reachable p w ->
  forall text,
    session_state w !! last_response = Some text ->
    exists e t n,
      session_state w !! last_enquiry = Some e
      /\ sent w !! n = Some (completion_request e t)
      /\ outcome_of_reply (p n (completion_request e t)) = Returned text.
Proof.
  induction 1 as [|wd w _ IH].
  - intros text Hs. cbn in Hs. rewrite lookup_empty in Hs. discriminate Hs.
  - destruct (interaction_cases p wd w) as (w' & -> & Hc). cbn [snd].
    destruct Hc as [w1 Hc | w1 w2 Hc Hc2].
    + exact (run_case_answers _ _ _ _ _ Hc IH).
    + exact (run_case_answers _ _ _ _ _ Hc2 (run_case_answers _ _ _ _ _ Hc IH)).
Qed.

(** The provider numbers its drafts; after a generation and a regeneration
    the stored draft is the second one, sent for the stored enquiry. *)
Lemma stored_response_answers_stored_enquiry_witness :
  let p := fun (n : nat) (_ : Request) =>
             CreateReturns
               (mkChatCompletion [mkChoice (py "Draft " ++ [48 + N.of_nat n])]) in
  let e := py "Water drips from the ceiling" in
  let t := py "Friendly & Casual" in
  let w1 := snd (interaction p (click_generate e t) fresh) in
  let w2 := snd (interaction p (click_regenerate [] t) w1) in
  reachable p w2
  /\ session_state w2 !! last_response = Some (py "Draft 1")
  /\ exists e' t' n,
       session_state w2 !! last_enquiry = Some e'
       /\ sent w2 !! n = Some (completion_request e' t')
       /\ outcome_of_reply (p n (completion_request e' t'))
          = Returned (py "Draft 1").
Proof.
  intros p e t w1 w2.
  assert (Hreach : reachable p w2)
    by (do 2 apply reachable_step; apply reachable_fresh).
  assert (Hs : session_state w2 !! last_response = Some (py "Draft 1"))
    by (vm_compute; reflexivity).
  split; [exact Hreach | split; [exact Hs |]].
  exact (stored_response_answers_stored_enquiry p w2 Hreach _ Hs).
Defined.

(** ** The page shows the stored response *)

Lemma gen_case_no_card (p : Provider) (wd : Widgets) (w w1 : World) :
  gen_case p wd w w1 ->
  (forall s, ~ In (st_code s) (page w)) ->
  forall s, ~ In (st_code s) (page w1).
Proof.
  intros Hc Hclean s.
  destruct Hc as [Hb | Hb Hbl | text Hb Hnb Hr | x Hb Hnb Hr];
    cbn [page]; [apply Hclean | | |];
    intros Hin; apply in_app_or in Hin;
    (destruct Hin as [Hin | Hin]; [exact (Hclean s Hin) |]);
    cbn [In] in Hin; intuition discriminate.
Qed.

Lemma response_card_code (text s : str) :
  In (st_code s) (response_card text) <-> s = text.
Proof.
  unfold response_card. cbn [In]. split.
  - intros [H | [H | [H | [H | [H | []]]]]]; try discriminate H.
    injection H as ->. reflexivity.
  - intros ->. do 4 right. left. reflexivity.
Qed.

Lemma response_card_markdown (text : str) :
  In (st_markdown text) (response_card text).
Proof. unfold response_card. right. left. reflexivity. Qed.

Lemma disp_case_in_sync (p : Provider) (wd : Widgets) (w w1 : World) :
  disp_case p wd w (Returned tt) w1 ->
  (forall s, ~ In (st_code s) (page w)) ->
  page_in_sync w1.
Proof.
  intros Hc Hclean. remember (Returned tt) as o eqn:Ho.
  destruct Hc as [hint Hs | text Hs Hb | text fr Hs Hb Hr | text x Hs Hb Hr];
    try discriminate Ho;
    unfold page_in_sync; cbn [session_state page]; rewrite Hs.
  - split.
    + exists hint. apply in_or_app. right. left. reflexivity.
    + intros s Hin. apply in_app_or in Hin.
      destruct Hin as [Hin | Hin]; [exact (Hclean s Hin) |].
      cbn [In] in Hin. intuition discriminate.
  - split.
    + apply in_or_app. right. apply response_card_markdown.
    + intros s. rewrite in_app_iff, response_card_code.
      split; [intros [Hin | Hin]; [destruct (Hclean s Hin) | exact Hin] | auto].
  - split.
    + apply in_or_app. right. apply in_or_app. left.
      apply response_card_markdown.
    + intros s. rewrite !in_app_iff, response_card_code. split.
      * intros [Hin | [Hin | Hin]];
          [destruct (Hclean s Hin) | exact Hin |].
        cbn [In] in Hin. intuition discriminate.
      * auto.
Qed.

Lemma run_case_in_sync (p : Provider) (wd : Widgets) (w w2 : World) :
  run_case p wd w (Returned tt) w2 -> page_in_sync w2.
Proof.
  intros Hc. remember (Returned tt) as o eqn:Ho.
  destruct Hc as [w1 o w2 Hg Hd]. subst o.
  apply (disp_case_in_sync _ _ _ _ Hd).
  apply (gen_case_no_card _ _ _ _ Hg).
  intros s Hin. cbn [headed page In] in Hin. intuition discriminate.
Qed.

(** X6: after every interaction the page shows the stored response and
    nothing else: with a response in the dictionary, its text is drawn and
    the copy box holds exactly that text; with none, the hint is drawn and
    there is no copy box.  It holds after a regeneration too, where the
    script had drawn the old text before replacing it and runs again. *)
Theorem page_shows_stored_response (p : Provider) (wd : Widgets) (w : World) :
  let w' := snd (interaction p wd w) in
  match session_state w' !! last_response with
  | Some text =>
    In (st_markdown text) (page w')
    /\ (forall s, In (st_code s) (page w') <-> s = text)
  | None =>
    (exists hint, In (st_info hint) (page w'))
    /\ (forall s, ~ In (st_code s) (page w'))
  end.
Proof.
  intros w'. subst w'.
  destruct (interaction_cases p wd w) as (w' & -> & Hc). cbn [snd].
  change (page_in_sync w').
  destruct Hc as [w1 Hc | w1 w2 Hc Hc2];
    eapply run_case_in_sync; eassumption.
Qed.

(** ** Generation and regeneration, click by click *)

(** X1: a click on "Generate Response" with an enquiry that is not blank,
    answered by the provider, sends one request whose user message is the
    enquiry exactly as typed (surrounding whitespace included: stripping
    serves the emptiness test only), stores that same text under
    "last_enquiry" and the answer under "last_response", changes no other
    key, and draws the answer. *)
Theorem generation_stores_enquiry_as_typed
  (p : Provider) (e t text : str) (w : World) :
  ~ blank e ->
  outcome_of_reply (p (length (sent w)) (completion_request e t))
  = Returned text ->
  let w' := snd (interaction p (click_generate e t) w) in
  session_state w' !! last_response = Some text
  /\ session_state w' !! last_enquiry = Some e
  /\ (forall k, k <> last_response -> k <> last_enquiry ->
                session_state w' !! k = session_state w !! k)
  /\ (exists r sys usr,
        sent w' = sent w ++ [r]
        /\ messages r = [sys; usr] /\ content usr = e)
  /\ In (st_markdown text) (page w').
Proof.
  intros Hnb Hok w'. subst w'.
  destruct (click_generate_ok p (click_generate e t) w text
              eq_refl eq_refl Hnb Hok)
    as (pg & -> & Hpg).
  cbn [snd session_state sent page enquiry tone click_generate].
  split; [apply lookup_after_generate |].
  split; [apply lookup_insert_eq |].
  split.
  { intros k Hr He. rewrite !lookup_insert_ne by congruence. reflexivity. }
  split; [| exact Hpg].
  do 3 eexists. split; [reflexivity |].
  unfold completion_request, compose_messages. cbn [messages content].
  split; reflexivity.
Qed.

Lemma generation_stores_enquiry_as_typed_witness :
  let p := answering (py "Thank you for reaching out.") in
  let e := [32; 32] ++ py "Water drips from the ceiling" ++ [32; 10] in
  let t := py "Friendly & Casual" in
  let w' := snd (interaction p (click_generate e t) fresh) in
  ~ blank e
  /\ outcome_of_reply (p (length (sent fresh)) (completion_request e t))
     = Returned (py "Thank you for reaching out.")
  /\ session_state w' !! last_enquiry = Some e
  /\ strip e <> e.
Proof.
  intros p e t w'.
  assert (Hnb : ~ blank e).
  { intros Hb. apply strip_nil_iff in Hb. vm_compute in Hb. discriminate Hb. }
  assert (Hok : outcome_of_reply
                  (p (length (sent fresh)) (completion_request e t))
                = Returned (py "Thank you for reaching out."))
    by (vm_compute; reflexivity).
  split; [exact Hnb | split; [exact Hok |]].
  split.
  - exact (proj1 (proj2 (generation_stores_enquiry_as_typed
                           p e t (py "Thank you for reaching out.")
                           fresh Hnb Hok))).
  - vm_compute. discriminate.
Defined.

(** X9: a regeneration sends the enquiry stored by the last generation with
    the tone selected at the time of the click: choosing another tone
    changes the request, editing the text area does not. *)
Theorem regeneration_uses_stored_enquiry_and_current_tone
  (p p' : Provider) (e e' t t' text : str) (w : World) :
  ~ blank e ->
  outcome_of_reply (p (length (sent w)) (completion_request e t))
  = Returned text ->
  let w1 := snd (interaction p (click_generate e t) w) in
  let w2 := snd (interaction p' (click_regenerate e' t') w1) in
  sent w2 = sent w ++ [completion_request e t; completion_request e t']
  /\ session_state w2 !! last_enquiry = Some e.
Proof.
  intros Hnb Hok w1 w2. subst w2 w1.
  destruct (click_generate_ok p (click_generate e t) w text
              eq_refl eq_refl Hnb Hok)
    as (pg & -> & _).
  cbn [snd enquiry tone click_generate].
  match goal with
  | |- context [interaction p' _ ?W] => set (w1 := W)
  end.
  assert (Hs : session_state w1 !! last_response = Some text)
    by apply lookup_after_generate.
  assert (Hle : session_state w1 !! last_enquiry = Some e)
    by apply lookup_insert_eq.
  assert (He : stored_enquiry w1 = e)
    by (unfold stored_enquiry; rewrite Hle; reflexivity).
  split.
  - rewrite (click_regenerate_sent p' (click_regenerate e' t') w1 text
               eq_refl eq_refl Hs).
    rewrite He. unfold w1. cbn [sent tone click_regenerate].
    rewrite <- app_assoc. reflexivity.
  - rewrite (last_enquiry_kept p' (click_regenerate e' t') w1 eq_refl).
    exact Hle.
Qed.

Lemma regeneration_uses_stored_enquiry_and_current_tone_witness :
  let p := answering (py "Thank you for reaching out.") in
  let e := py "Water drips from the ceiling" in
  let t := py "Friendly & Casual" in
  let t' := py "Formal & Professional" in
  let w1 := snd (interaction p (click_generate e t) fresh) in
  let w2 := snd (interaction p (click_regenerate (py "typed later") t') w1) in
  ~ blank e
  /\ outcome_of_reply (p (length (sent fresh)) (completion_request e t))
     = Returned (py "Thank you for reaching out.")
  /\ sent w2 = [completion_request e t; completion_request e t'].
Proof.
  intros p e t t' w1 w2.
  assert (Hnb : ~ blank e).
  { intros Hb. apply strip_nil_iff in Hb. vm_compute in Hb. discriminate Hb. }
  assert (Hok : outcome_of_reply
                  (p (length (sent fresh)) (completion_request e t))
                = Returned (py "Thank you for reaching out."))
    by (vm_compute; reflexivity).
  split; [exact Hnb | split; [exact Hok |]].
  exact (proj1 (regeneration_uses_stored_enquiry_and_current_tone
                  p p e (py "typed later") t t'
                  (py "Thank you for reaching out.") fresh Hnb Hok)).
Defined.

(** X10: a completion whose list of choices is empty makes [choices[0]]
    raise: [generate_response] ends with the index error, and a generation
    draws it in the error box and stores nothing. *)
Theorem empty_choices_are_an_error
  (p : Provider) (e t : str) (w : World) :
  ~ blank e ->
  p (length (sent w)) (completion_request e t)
  = CreateReturns (mkChatCompletion []) ->
  let out := interaction p (click_generate e t) w in
  fst (generate_response p e t w) = Raised IndexError
  /\ session_state (snd out) = session_state w
  /\ In (st_error (ERR_GENERATE ++ exn_str IndexError)) (page (snd out)).
Proof.
  intros Hnb Hp out. subst out.
  assert (Hfail : outcome_of_reply
                    (p (length (sent w)) (completion_request e t))
                  = Raised IndexError) by (rewrite Hp; reflexivity).
  split; [rewrite generate_response_eq; exact Hfail |].
  destruct (click_generate_fail p (click_generate e t) w IndexError
              eq_refl eq_refl Hnb Hfail)
    as (pg & -> & Herr & _).
  split; [reflexivity | exact Herr].
Qed.

Lemma empty_choices_are_an_error_witness :
  let p := fun (_ : nat) (_ : Request) =>
             CreateReturns (mkChatCompletion []) in
  let e := py "Water drips from the ceiling" in
  let t := py "Friendly & Casual" in
  ~ blank e
  /\ p (length (sent fresh)) (completion_request e t)
     = CreateReturns (mkChatCompletion [])
  /\ session_state (snd (interaction p (click_generate e t) fresh)) = ∅.
Proof.
  intros p e t.
  assert (Hnb : ~ blank e).
  { intros Hb. apply strip_nil_iff in Hb. vm_compute in Hb. discriminate Hb. }
  split; [exact Hnb | split; [reflexivity |]].
  exact (proj1 (proj2 (empty_choices_are_an_error p e t fresh Hnb eq_refl))).
Defined.

(** X11: while no response is stored, an interaction without a click on
    "Generate Response" sends nothing and stores nothing, even if the
    "Regenerate" button reads pressed: the regenerate branch is guarded by
    the presence of "last_response"; the hint is drawn instead. *)
Theorem nothing_stored_nothing_regenerated
  (p : Provider) (wd : Widgets) (w : World) :
  session_state w !! last_response = None ->
  generate_btn wd = false ->
  let out := interaction p wd w in
  sent (snd out) = sent w
  /\ session_state (snd out) = session_state w
  /\ exists hint, In (st_info hint) (page (snd out)).
Proof.
  intros Hnone Hg out. subst out.
  destruct (interaction_cases p wd w) as (w' & -> & Hc). cbn [snd].
  assert (Hrun : forall o w2,
             run_case p wd w o w2 ->
             o = Returned tt
             /\ sent w2 = sent w /\ session_state w2 = session_state w
             /\ exists hint, In (st_info hint) (page w2)).
  { intros o w2 [w1 o' w2' Hgc Hd].
    destruct (gen_case_effect _ _ _ _ Hgc) as (_ & Hoff & _).
    rewrite (Hoff Hg) in Hd.
    destruct Hd as [hint Hs | text Hs Hb | text fr Hs Hb Hr | text x Hs Hb Hr];
      cbn [headed session_state] in Hs; try congruence.
    cbn [session_state sent page headed].
    repeat split. exists hint. apply in_or_app. right. left. reflexivity. }
  destruct Hc as [w1 Hc | w1 w2 Hc Hc2].
  - destruct (Hrun _ _ Hc) as (_ & Hse & Hst & Hh). auto.
  - destruct (Hrun _ _ Hc) as (Ho & _). discriminate Ho.
Qed.

Lemma nothing_stored_nothing_regenerated_witness :
  let p := answering (py "Thank you for reaching out.") in
  let wd := mkWidgets (py "Water drips from the ceiling")
                      (py "Friendly & Casual") false true in
  session_state fresh !! last_response = None
  /\ generate_btn wd = false
  /\ sent (snd (interaction p wd fresh)) = [].
Proof.
  intros p wd.
  assert (Hn : session_state fresh !! last_response = None) by reflexivity.
  split; [exact Hn | split; [reflexivity |]].
  exact (proj1 (nothing_stored_nothing_regenerated p wd fresh Hn eq_refl)).
Defined.

(** ** The composer separates its inputs *)

Lemma system_content_inj (f1 f2 : str) :
  SYSTEM_PROMPT ++ [LF; LF] ++ f1 = SYSTEM_PROMPT ++ [LF; LF] ++ f2 ->
  f1 = f2.
Proof.
  intros H. apply app_inv_head in H. apply app_inv_head in H. exact H.
Qed.

Lemma compose_messages_inv (e1 e2 t1 t2 : str) :
  compose_messages e1 t1 = compose_messages e2 t2 ->
  e1 = e2 /\ tone_instruction t1 = tone_instruction t2.
Proof.
  intros H. unfold compose_messages in H.
  pose proof (f_equal (fun l => match l with
                                | _ :: m :: _ => content m
                                | _ => []
                                end) H) as Hu.
  pose proof (f_equal (fun l => match l with
                                | m :: _ => content m
                                | _ => []
                                end) H) as Hs.
  cbn [content] in Hu, Hs.
  split; [exact Hu | exact (system_content_inj _ _ Hs)].
Qed.

Lemma tone_fragment_inj (a b : Tone) :
  tone_fragment a = tone_fragment b -> a = b.
Proof.
  destruct a, b; intros H; try reflexivity;
    vm_compute in H; discriminate H.
Qed.

Lemma tone_fragment_nonempty (a : Tone) : tone_fragment a <> [].
Proof. destruct a; vm_compute; discriminate. Qed.

(** X8: the message list determines what it was built from: two requests
    composed for tones of the select box have the same messages only if
    the enquiries are equal and the tones are the same, and a tone outside
    the select box never yields the messages of one inside; the fragment
    is empty exactly for the tones outside. *)
Theorem composer_separates_inputs (e1 e2 : str) :
  (forall a b : Tone,
     compose_messages e1 (tone_label a) = compose_messages e2 (tone_label b) ->
     e1 = e2 /\ a = b)
  /\ (forall (tone : str) (b : Tone),
        unknown_tone tone ->
        compose_messages e1 tone <> compose_messages e2 (tone_label b))
  /\ (forall tone : str, tone_instruction tone = [] <-> unknown_tone tone).
Proof.
  split; [| split].
  - intros a b H. destruct (compose_messages_inv _ _ _ _ H) as [He Ht].
    rewrite !tone_instruction_label in Ht.
    split; [exact He | exact (tone_fragment_inj _ _ Ht)].
  - intros tone b Hu H. destruct (compose_messages_inv _ _ _ _ H) as [_ Ht].
    rewrite tone_instruction_label, (tone_instruction_unknown tone Hu) in Ht.
    exact (tone_fragment_nonempty b (eq_sym Ht)).
  - intros tone. split; [| apply tone_instruction_unknown].
    intros Hnil t ->. rewrite tone_instruction_label in Hnil.
    exact (tone_fragment_nonempty t Hnil).
Qed.

(** ** Warnings and error boxes are never spurious *)

Lemma gen_case_boxes (p : Provider) (wd : Widgets) (w w1 : World) :
  gen_case p wd w w1 ->
  (forall s, In (st_error s) (page w1) ->
             In (st_error s) (page w) \/ reports_failure p w w1 s)
  /\ (forall s, In (st_warning s) (page w1) ->
                In (st_warning s) (page w)
                \/ (s = WARN_EMPTY /\ generate_btn wd = true
                    /\ blank (enquiry wd) /\ sent w1 = sent w)).
Proof.
  intros Hc.
  destruct Hc as [Hb | Hb Hbl | text Hb Hnb Hr | x Hb Hnb Hr];
    cbn [page sent]; (split; [intros s Hin | intros s Hin]); auto;
    apply in_app_or in Hin; (destruct Hin as [Hin | Hin]; [auto |]);
    cbn [In] in Hin.
  - intuition discriminate.
  - destruct Hin as [[= <-] | []]. right. auto.
  - intuition discriminate.
  - intuition discriminate.
  - destruct Hin as [Hin | [[= <-] | []]]; [discriminate Hin |].
    right. exists x, (length (sent w)), (completion_request (enquiry wd) (tone wd)).
    split; [auto |]. split; [lia |].
    split; [apply list_lookup_middle; reflexivity | exact Hr].
  - intuition discriminate.
Qed.

Lemma response_card_no_box (text s : str) :
  ~ In (st_error s) (response_card text)
  /\ ~ In (st_warning s) (response_card text).
Proof.
  unfold response_card. cbn [In]. split; intuition discriminate.
Qed.

Lemma disp_case_boxes (p : Provider) (wd : Widgets) (w w1 : World)
      (o : Outcome unit) :
  disp_case p wd w o w1 ->
  (forall s, In (st_error s) (page w1) ->
             In (st_error s) (page w) \/ reports_failure p w w1 s)
  /\ (forall s, In (st_warning s) (page w1) -> In (st_warning s) (page w)).
Proof.
  intros Hc.
  destruct Hc as [hint Hs | text Hs Hb | text fr Hs Hb Hr | text x Hs Hb Hr];
    cbn [page sent]; (split; [intros s Hin | intros s Hin]);
    rewrite ?in_app_iff in Hin;
    repeat match goal with
           | H : _ \/ _ |- _ => destruct H as [H | H]
           end;
    auto;
    try (exfalso; first [ exact (proj1 (response_card_no_box _ _) Hin)
                        | exact (proj2 (response_card_no_box _ _) Hin) ]);
    cbn [In] in Hin; try (exfalso; intuition discriminate).
  destruct Hin as [Hin | [[= <-] | []]]; [discriminate Hin |].
  right.
  exists x, (length (sent w)),
         (completion_request (stored_enquiry w) (tone wd)).
  split; [auto |]. split; [lia |].
  split; [apply list_lookup_middle; reflexivity | exact Hr].
Qed.

Lemma reports_failure_later (p : Provider) (w w1 w2 : World) (s : str)
      (reqs : list Request) :
  sent w2 = sent w1 ++ reqs ->
  reports_failure p w w1 s -> reports_failure p w w2 s.
Proof.
  intros Hse (x & n & req & Hs & Hn & Hl & Ho).
  exists x, n, req. split; [exact Hs |]. split; [exact Hn |].
  split; [rewrite Hse; apply lookup_app_l_Some, Hl | exact Ho].
Qed.

Lemma reports_failure_earlier (p : Provider) (w w1 w2 : World) (s : str)
      (reqs : list Request) :
  sent w1 = sent w ++ reqs ->
  reports_failure p w1 w2 s -> reports_failure p w w2 s.
Proof.
  intros Hse (x & n & req & Hs & Hn & Hl & Ho).
  exists x, n, req. split; [exact Hs |].
  split; [rewrite Hse, length_app in Hn; lia |].
  split; [exact Hl | exact Ho].
Qed.

Lemma run_case_boxes (p : Provider) (wd : Widgets) (w w2 : World)
      (o : Outcome unit) :
  run_case p wd w o w2 ->
  (forall s, In (st_error s) (page w2) -> reports_failure p w w2 s)
  /\ (forall s, In (st_warning s) (page w2) ->
                s = WARN_EMPTY /\ generate_btn wd = true
                /\ blank (enquiry wd)).
Proof.
  intros [w1 o' w2' Hg Hd].
  destruct (gen_case_boxes _ _ _ _ Hg) as [Hge Hgw].
  destruct (disp_case_boxes _ _ _ _ _ Hd) as [Hde Hdw].
  destruct (gen_case_effect _ _ _ _ Hg) as ((r1 & Hs1 & _) & _).
  destruct (disp_case_effect _ _ _ _ _ Hd) as ((r2 & Hs2 & _) & _).
  split.
  - intros s Hin. destruct (Hde s Hin) as [Hin1 | Hrep].
    + destruct (Hge s Hin1) as [Hin0 | Hrep].
      * cbn [headed page In] in Hin0. exfalso. intuition discriminate.
      * apply (reports_failure_later p (headed w) w1 w2' s r2 Hs2) in Hrep.
        exact Hrep.
    + exact (reports_failure_earlier p (headed w) w1 w2' s r1 Hs1 Hrep).
  - intros s Hin. apply Hdw in Hin. destruct (Hgw s Hin) as [Hin0 | Hw].
    + cbn [headed page In] in Hin0. exfalso. intuition discriminate.
    + tauto.
Qed.

(** X12: the boxes an interaction leaves on the page are never spurious:
    an error box always carries one of the two labels followed by the text
    of the exception with which a request sent during this interaction
    ended, and the warning is drawn only for a click on "Generate
    Response" with a blank enquiry. *)
Theorem boxes_are_never_spurious (p : Provider) (wd : Widgets) (w : World) :
  let w' := snd (interaction p wd w) in
  (forall s, In (st_error s) (page w') ->
     exists x n req,
       (s = ERR_GENERATE ++ exn_str x \/ s = ERR_REGENERATE ++ exn_str x)
       /\ (length (sent w) <= n)%nat
       /\ sent w' !! n = Some req
       /\ outcome_of_reply (p n req) = Raised x)
  /\ (forall s, In (st_warning s) (page w') ->
        s = WARN_EMPTY /\ generate_btn wd = true /\ blank (enquiry wd)).
Proof.
  intros w'. subst w'.
  destruct (interaction_cases p wd w) as (w' & -> & Hc). cbn [snd].
  destruct Hc as [w1 Hc | w1 w2 Hc Hc2].
  - exact (run_case_boxes _ _ _ _ _ Hc).
  - destruct (run_case_boxes _ _ _ _ _ Hc2) as [He Hw].
    split.
    + intros s Hin. exfalso.
      destruct (He s Hin) as (x & n & req & _ & Hn & Hl & _).
      destruct (released_run_effect _ _ _ _ _ Hc2) as [_ Hse].
      rewrite Hse in Hl. apply lookup_lt_Some in Hl. lia.
    + intros s Hin. destruct (Hw s Hin) as (_ & Hg & _). discriminate Hg.
Qed.
